(** * rhc.micro: the micro-service launcher, embedded in Rocq

    A shallow embedding of [rhc/micro.py]: the recursive source loader
    ([_load]), the line lexer inside [parse], the config directives
    ([_config], [_config_server]), the topology objects ([Route], [Server])
    and the directive state machine ([FSM]).

    Python objects that are mutated in place are threaded explicitly; calls
    that leave the module (the import machinery, the setup function, the
    listener registry, the file system, the environment) are fields of a
    [World] record, so every definition below can be evaluated once a world
    is given. *)

From Stdlib Require Import ZArith Ascii String List Bool Lia.
From stdpp Require Import base option list gmap strings.

Local Open Scope string_scope.
Local Open Scope list_scope.
Local Open Scope Z_scope.

(** ** Python strings *)

(** The characters [str.strip] and [str.split] treat as white space:
    space, tab, line feed, vertical tab, form feed, carriage return. *)
Definition is_space (c : ascii) : bool :=
  let n := nat_of_ascii c in
  Nat.eqb n 32 || (Nat.leb 9 n && Nat.leb n 13).

Definition is_upper (c : ascii) : bool :=
  let n := nat_of_ascii c in Nat.leb 65 n && Nat.leb n 90.

Definition is_digit (c : ascii) : bool :=
  let n := nat_of_ascii c in Nat.leb 48 n && Nat.leb n 57.

Definition lower_char (c : ascii) : ascii :=
  if is_upper c then ascii_of_nat (nat_of_ascii c + 32) else c.

(** [s.lower()] *)
Fixpoint lower (s : string) : string :=
  match s with
  | EmptyString => EmptyString
  | String c s' => String (lower_char c) (lower s')
  end.

Definition is_empty (s : string) : bool :=
  match s with EmptyString => true | _ => false end.

(** [s.lstrip()] *)
Fixpoint lstrip (s : string) : string :=
  match s with
  | EmptyString => EmptyString
  | String c s' => if is_space c then lstrip s' else s
  end.

(** [s.rstrip()] *)
Fixpoint rstrip (s : string) : string :=
  match s with
  | EmptyString => EmptyString
  | String c s' =>
      let r := rstrip s' in
      if is_space c && is_empty r then EmptyString else String c r
  end.

(** [s.strip()] *)
Definition strip (s : string) : string := rstrip (lstrip s).

(** [c in s] for a one-character [c] *)
Fixpoint contains (c : ascii) (s : string) : bool :=
  match s with
  | EmptyString => false
  | String d s' => if Ascii.eqb c d then true else contains c s'
  end.

(** [s.split(sep, 1)] for a one-character separator: one element when the
    separator does not occur, two otherwise. *)
Fixpoint split_once (sep : ascii) (s : string) : list string :=
  match s with
  | EmptyString => [EmptyString]
  | String c s' =>
      if Ascii.eqb c sep then [EmptyString; s']
      else match split_once sep s' with
           | a :: rest => String c a :: rest
           | [] => []
           end
  end.

(** [s.split(sep)] for a one-character separator. *)
Fixpoint split_all (sep : ascii) (s : string) : list string :=
  match s with
  | EmptyString => [EmptyString]
  | String c s' =>
      if Ascii.eqb c sep then EmptyString :: split_all sep s'
      else match split_all sep s' with
           | a :: rest => String c a :: rest
           | [] => []
           end
  end.

(** [s.rsplit(sep, 1)] for a one-character separator. *)
Fixpoint rsplit_once (sep : ascii) (s : string) : list string :=
  match s with
  | EmptyString => [EmptyString]
  | String c s' =>
      match rsplit_once sep s' with
      | [a; b] => [String c a; b]
      | _ => if Ascii.eqb c sep then [EmptyString; s'] else [s]
      end
  end.

(** [s.split()]: the maximal runs of characters that are not white space. *)
Fixpoint split_ws_aux (cur : option string) (s : string) : list string :=
  match s with
  | EmptyString => match cur with Some t => [t] | None => [] end
  | String c s' =>
      if is_space c
      then match cur with
           | Some t => t :: split_ws_aux None s'
           | None => split_ws_aux None s'
           end
      else match cur with
           | Some t => split_ws_aux (Some (t +:+ String c EmptyString)) s'
           | None => split_ws_aux (Some (String c EmptyString)) s'
           end
  end.

Definition split_ws (s : string) : list string := split_ws_aux None s.

(** [sep.join(l)] *)
Fixpoint join (sep : string) (l : list string) : string :=
  match l with
  | [] => EmptyString
  | [a] => a
  | a :: rest => a +:+ sep +:+ join sep rest
  end.

(** [s.startswith(c)] for a one-character [c] *)
Definition startswith (c : ascii) (s : string) : bool :=
  match s with
  | String d _ => Ascii.eqb c d
  | EmptyString => false
  end.

(** [s.endswith(c)] for a one-character [c] *)
Fixpoint endswith (c : ascii) (s : string) : bool :=
  match s with
  | EmptyString => false
  | String d EmptyString => Ascii.eqb c d
  | String _ s' => endswith c s'
  end.

Fixpoint all_digits (s : string) : bool :=
  match s with
  | EmptyString => true
  | String c s' => is_digit c && all_digits s'
  end.

Fixpoint digits_value (acc : Z) (s : string) : Z :=
  match s with
  | EmptyString => acc
  | String c s' => digits_value (10 * acc + Z.of_nat (nat_of_ascii c - 48)) s'
  end.

(** [int(s)] on a string: optional surrounding white space, an optional
    sign, then one or more decimal digits; anything else is a ValueError
    ([None]). *)
Definition int_of_string (s : string) : option Z :=
  match strip s with
  | String "-" d =>
      if negb (is_empty d) && all_digits d then Some (- digits_value 0 d) else None
  | String "+" d =>
      if negb (is_empty d) && all_digits d then Some (digits_value 0 d) else None
  | d => if negb (is_empty d) && all_digits d then Some (digits_value 0 d) else None
  end.

(** ** Exceptions

    One constructor for each [raise] of the module and for each kind of
    built-in exception its statements can throw.  Every exception that
    crosses [FSM.handle] is re-raised with the line and file appended;
    [Located] is that wrapper. *)
Inductive exn : Type :=
| RecursiveImport (fname : string)
    (* 'a micro file (in this case, %s) cannot be recursively imported' *)
| InvalidRecord (event : string)          (* 'invalid record ' + event *)
| UnexpectedEvent (event : string)        (* 'unexpected event ' + event *)
| PortAlreadyDefined (port : Z) (owner : string)
    (* 'port %s already defined for server "%s"' *)
| UnrecognizedValidation                  (* '%s is not a recognized validation type' *)
| ValueError
| TypeError
| NameError
| AttributeError (attr : string)
| ImportError (path : string)
| IOError (fname : string)
| ValidationError (value : string)
| External (what : string)                (* raised inside a collaborator *)
| Located (e : exn) (linenum : nat) (fname : string).
    (* '%s, line=%d of %s' % (e, linenum, fname) *)

Inductive result (A : Type) : Type :=
| Ok (a : A)
| Raise (e : exn).
Arguments Ok {A} a.
Arguments Raise {A} e.

Definition is_ok {A} (r : result A) : bool :=
  match r with Ok _ => true | Raise _ => false end.

(** ** Paths (posixpath, [os.path.sep] is "/") *)

Fixpoint rstrip_char (c : ascii) (s : string) : string :=
  match s with
  | EmptyString => EmptyString
  | String d s' =>
      let r := rstrip_char c s' in
      if Ascii.eqb d c && is_empty r then EmptyString else String d r
  end.

(** [os.path.dirname]: the head up to and including the last "/", with its
    trailing slashes removed unless it consists of slashes only. *)
Definition dirname (p : string) : string :=
  match rsplit_once "/" p with
  | [a; _] =>
      let head := a +:+ "/" in
      let stripped := rstrip_char "/" head in
      if is_empty stripped then head else stripped
  | _ => EmptyString
  end.

(** [os.path.join(a, *p)] *)
Fixpoint path_join (a : string) (p : list string) : string :=
  match p with
  | [] => a
  | b :: p' =>
      if startswith "/" b then path_join b p'
      else if is_empty a || endswith "/" a then path_join (a +:+ b) p'
      else path_join (a +:+ "/" +:+ b) p'
  end.

(** ** The source loader *)

(** The part of the file system and of the import machinery [_load] sees. *)
Record Files : Type := {
  readlines : string -> option (list string);
    (* open(fname).readlines(); None: IOError *)
  find_module : string -> option string
    (* imp.find_module(name)[1]; None: ImportError *)
}.

(** A loaded line: [(fname, n, l)]. *)
Definition rawline : Type := string * nat * string.

(** The two lists [_load] shares with its recursive calls: [files], [lines]. *)
Definition lstate : Type := list string * list rawline.

(** [len(ll) > 1 and ll[0].lower() == 'import'], with [' '.join(ll[1:])]. *)
Definition import_fname_of (l : string) : option string :=
  match split_ws l with
  | kw :: (_ :: _) as rest =>
      if String.eqb (lower kw) "import" then Some (join " " rest) else None
  | _ => None
  end.

Definition resolve_import (fs : Files) (dir_path import_fname : string) : result string :=
  if contains "." import_fname && negb (contains "/" import_fname) then
    match split_all "." import_fname with
    | first :: parts =>
        match find_module fs first with
        | Some path => Ok (path_join path parts)
        | None => Raise (ImportError first)
        end
    | [] => Raise ValueError
    end
  else if negb (startswith "/" import_fname) then
    Ok (path_join dir_path [import_fname])
  else Ok import_fname.

(** The [for n, l in enumerate(..., start=1)] loop of [_load]; [rec] is the
    recursive call.  [None] means the recursion budget ran out. *)
Definition load_lines (fs : Files)
    (rec : string -> lstate -> option (result lstate))
    (fname dir_path : string)
  : nat -> list string -> lstate -> option (result lstate) :=
  fix go (n : nat) (ls : list string) (st : lstate) {struct ls} :=
    match ls with
    | [] => Some (Ok st)
    | l :: ls' =>
        match import_fname_of l with
        | Some import_fname =>
            match resolve_import fs dir_path import_fname with
            | Raise e => Some (Raise e)
            | Ok target =>
                match rec target st with
                | Some (Ok st') => go (S n) ls' st'
                | other => other
                end
            end
        | None => go (S n) ls' (st.1, st.2 ++ [(fname, n, l)])
        end
    end.

(** [_load(fname, files, lines)].  [fuel] bounds the depth of the recursion. *)
Fixpoint _load (fs : Files) (fuel : nat) (fname : string) (st : lstate)
  : option (result lstate) :=
  match fuel with
  | O => None
  | S fuel' =>
      if bool_decide (fname ∈ st.1) then Some (Raise (RecursiveImport fname))
      else
        let st1 := (st.1 ++ [fname], st.2) in
        match readlines fs fname with
        | None => Some (Raise (IOError fname))
        | Some ls => load_lines fs (_load fs fuel') fname (dirname fname) 1%nat ls st1
        end
  end.

(** [_load(s)]: both lists start empty and [lines] is returned. *)
Definition load (fs : Files) (fuel : nat) (s : string) : option (result (list rawline)) :=
  match _load fs fuel s ([], []) with
  | Some (Ok st) => Some (Ok st.2)
  | Some (Raise e) => Some (Raise e)
  | None => None
  end.

(** ** The line lexer of [parse] *)

Inductive lexed : Type :=
| Blank                              (* [continue] *)
| Directive (n v : string)
| BadLine (e : exn).                 (* the ValueError of the unpacking *)

Definition lex (l : string) : lexed :=
  let l := strip (hd EmptyString (split_once "#" l)) in
  if is_empty l then Blank
  else match split_once " " l with
       | [n; v] => Directive (lower n) v
       | _ => BadLine ValueError
       end.

(** ** Values and references *)

(** The three functions [rhc.config] exports as validators. *)
Inductive validator : Type := validate_int | validate_bool | validate_file.

(** The Python values that flow through config keys and keyword arguments. *)
Inductive pyval : Type :=
| VNone
| VInt (z : Z)
| VBool (b : bool)
| VStr (s : string)
| VValidator (f : validator).

(** What [_import] returns, and the two callables the module itself names. *)
Inductive pyref : Type :=
| Fn (module function : string)     (* getattr(import_module(path), function) *)
| Mod (module : string)             (* import_module(item_path) *)
| MicroRESTHandler                  (* the default handler class *)
| NoTeardown.                       (* lambda *x: None *)

(** Truth value of a config value in an [if]. *)
Definition truthy (v : pyval) : bool :=
  match v with
  | VNone => false
  | VInt z => negb (z =? 0)
  | VBool b => b
  | VStr s => negb (is_empty s)
  | VValidator _ => true
  end.

(** [int(v)] *)
Definition py_int (v : pyval) : result Z :=
  match v with
  | VInt z => Ok z
  | VBool b => Ok (if b then 1 else 0)
  | VStr s => match int_of_string s with Some z => Ok z | None => Raise ValueError end
  | VNone | VValidator _ => Raise TypeError
  end.

(** ** The config namespace *)

(** Modelled from the spec: [rhc.config] is not part of the sources at hand.
    A ConfigKey is (dottedName, defaultValue, validator?, envVarName?); the
    value field holds the default until the override file replaces it. *)
Record ConfigKey : Type := {
  key_name : string;
  key_value : pyval;
  key_validator : option validator;
  key_env : option string
}.

(** Modelled from the spec: the namespace is built incrementally, one key
    per [_define]; it is kept here in registration order. *)
Definition Config : Type := list ConfigKey.

(** Modelled from the spec: the validators.  "int - accept an integer or a
    digit string, coerce to integer; bool - accept boolean-typed input or a
    case-insensitive true/false string; file - accept a path string only if
    it names an existing file on disk; reject otherwise." *)
Definition run_validator (isfile : string -> bool) (f : validator) (v : pyval)
  : result pyval :=
  match f, v with
  | validate_int, VInt z => Ok (VInt z)
  | validate_int, VStr s =>
      if negb (is_empty s) && all_digits s then Ok (VInt (digits_value 0 s))
      else Raise (ValidationError s)
  | validate_bool, VBool b => Ok (VBool b)
  | validate_bool, VStr s =>
      if String.eqb (lower s) "true" then Ok (VBool true)
      else if String.eqb (lower s) "false" then Ok (VBool false)
      else Raise (ValidationError s)
  | validate_file, VStr s =>
      if isfile s then Ok (VStr s) else Raise (ValidationError s)
  | _, _ => Raise (ValidationError EmptyString)
  end.

(** Modelled from the spec: [cfg._define(name, **kwargs)] with the keyword
    arguments [value], [validator] and [env]; any other keyword is a
    TypeError, as for every Python function without [**kwargs]. *)
Definition _define (cfg : Config) (name : string) (kwargs : gmap string pyval)
  : result Config :=
  if bool_decide (dom kwargs ⊆ ({["value"; "validator"; "env"]} : gset string)) then
    match kwargs !! "validator", kwargs !! "env" with
    | Some (VStr _), _ | Some (VInt _), _ | Some (VBool _), _ => Raise TypeError
    | _, Some (VInt _) | _, Some (VBool _) | _, Some (VValidator _) => Raise TypeError
    | vf, ve =>
        Ok (cfg ++ [{| key_name := name;
                       key_value := default VNone (kwargs !! "value");
                       key_validator :=
                         match vf with Some (VValidator f) => Some f | _ => None end;
                       key_env := match ve with Some (VStr e) => Some e | _ => None end |}])
    end
  else Raise TypeError.

(** The key registered last under [name]. *)
Definition find_key (cfg : Config) (name : string) : option ConfigKey :=
  last (filter (fun k => key_name k = name) cfg).

Definition is_prefix (p s : string) : bool := String.prefix p s.

(** [hasattr(o, seg)] on the namespace tree: some key lies at or below the
    dotted path [path]. *)
Definition has_node (cfg : Config) (path : string) : bool :=
  existsb (fun k => String.eqb (key_name k) path || is_prefix (path +:+ ".") (key_name k)) cfg.

(** ** The collaborators *)

Record SSLParam : Type := { keyfile : pyval; certfile : pyval }.

Record MicroContext : Type := {
  http_max_content_length : pyval;
  http_max_line_length : pyval;
  http_max_header_count : pyval;
  hide_stack_trace : pyval
}.

(** Modelled from the spec: [rhc.resthandler.RESTMapper] is not part of the
    sources at hand.  The route table is the ordered list of the
    (pattern, method table) pairs handed to [mapper.add]. *)
Record RESTMapper : Type := {
  mapper_context : MicroContext;
  mapper_routes : list (option string * gmap string pyref)
}.

(** The arguments of one [SERVER.add_server(port, handler, mapper, ssl=ssl)]. *)
Record Listener : Type := {
  listen_port : Z;
  listen_handler : pyref;
  listen_mapper : RESTMapper;
  listen_ssl : option SSLParam
}.

(** A call that leaves the module, as the trace records it. *)
Inductive call : Type :=
| CallSetup (f : pyref) (cfg : Config)           (* _import(path)(self.config) *)
| CallLoadOverride (cfg : Config)                (* self.config._load('config') *)
| CallAddServer (l : Listener).                  (* SERVER.add_server(...) *)

Record World : Type := {
  files : Files;
  getenv : string -> option string;              (* os.getenv *)
  isfile : string -> bool;                       (* what validate_file tests *)
  exists_config : bool;                          (* os.path.exists('config') *)
  load_override : Config -> result Config;       (* Config._load('config') *)
  import_module : string -> option exn;
    (* what importing a module by its absolute name raises; None: it returns *)
  module_attr : string -> string -> bool;        (* getattr(module, function) succeeds *)
  setup_call : string -> string -> Config -> result Config;
    (* the call of the setup function on the live namespace *)
  add_server : list Listener -> Listener -> result unit
    (* SERVER.add_server, given the listeners already registered *)
}.

(** [importlib.import_module(name)], called without a package: a name
    that starts with a dot is a relative import and a TypeError, the empty
    name is the ValueError ('Empty module name') of [__import__]; what the
    import of any other name does is the world's. *)
Definition import_module_call (w : World) (name : string) : result unit :=
  if is_prefix "." name then Raise TypeError
  else if is_empty name then Raise ValueError
  else match import_module w name with
       | Some e => Raise e
       | None => Ok tt
       end.

(** [_import(item_path, is_module)] *)
Definition _import (w : World) (item_path : string) (is_module : bool) : result pyref :=
  if is_module then
    match import_module_call w item_path with
    | Ok _ => Ok (Mod item_path)
    | Raise e => Raise e
    end
  else
    match rsplit_once "." item_path with
    | [path; function] =>
        match import_module_call w path with
        | Ok _ =>
            if module_attr w path function then Ok (Fn path function)
            else Raise (AttributeError function)
        | Raise e => Raise e
        end
    | _ => Raise ValueError
    end.

(** [_import(self.data)]: on [None] the call [item_path.rsplit] fails. *)
Definition _import_data (w : World) (d : option string) : result pyref :=
  match d with
  | Some path => _import w path false
  | None => Raise (AttributeError "rsplit")
  end.

(** The monad of plain fallible statements. *)
Global Instance result_ret : MRet result := fun _ a => Ok a.
Global Instance result_bind : MBind result := fun _ _ f r =>
  match r with Ok a => f a | Raise e => Raise e end.

(** Modelled from the spec: "precedence on resolution: environment variable
    (if set) > override-file value > default"; the environment value is run
    through the key's validator. *)
Definition key_resolved (w : World) (k : ConfigKey) : result pyval :=
  match key_env k ≫= getenv w with
  | Some s =>
      match key_validator k with
      | Some f => run_validator (isfile w) f (VStr s)
      | None => Ok (VStr s)
      end
  | None => Ok (key_value k)
  end.

(** The object a [Server] is built from: a section of the namespace, or the
    one-field tuple [namedtuple('config', 'port')(int(self.data))]. *)
Inductive section : Type :=
| NamedSection (name : string)
| PortOnly (port : Z).

(** [getattr(config, a)] for a leaf below the section. *)
Definition sec_getattr (w : World) (cfg : Config) (sec : section) (a : string)
  : result pyval :=
  match sec with
  | NamedSection name =>
      match find_key cfg (name +:+ "." +:+ a) with
      | Some k => key_resolved w k
      | None => Raise (AttributeError a)
      end
  | PortOnly p => if String.eqb a "port" then Ok (VInt p) else Raise (AttributeError a)
  end.

(** [hasattr(config, a)]: Python 2 answers False whenever the lookup raises. *)
Definition sec_hasattr (w : World) (cfg : Config) (sec : section) (a : string) : bool :=
  match sec with
  | NamedSection name =>
      match find_key cfg (name +:+ "." +:+ a) with
      | Some k => is_ok (key_resolved w k)
      | None => has_node cfg (name +:+ "." +:+ a)
      end
  | PortOnly p => String.eqb a "port"
  end.

(** [getattr(self.config, name)] *)
Definition config_section (cfg : Config) (name : string) : result section :=
  if negb (contains "." name) && has_node cfg name then Ok (NamedSection name)
  else Raise (AttributeError name).

(** ** Route and Server *)

(** The pattern of a route is [self.data] as it was when the ROUTE
    directive was handled: the rest of the line, or [None]. *)
Record Route : Type := {
  pattern : option string;
  method : gmap string pyref
}.

(** [Route(pattern)] *)
Definition Route_init (pattern : option string) : Route :=
  {| pattern := pattern; method := ∅ |}.

(** [Route.add(method, path)] *)
Definition Route_add (w : World) (r : Route) (m : string) (path : option string)
  : result Route :=
  f ← _import_data w path;
  Ok {| pattern := pattern r; method := <[m := f]> (method r) |}.

Record Server : Type := {
  name : string;
  mapper : RESTMapper;
  is_active : pyval;
  port : Z;
  handler : pyref;
  ssl : option SSLParam;
  route : option Route                (* None: no attribute [route] yet *)
}.

(** [mapper.add(pattern, **methods)] *)
Definition mapper_add (m : RESTMapper) (r : Route) : RESTMapper :=
  {| mapper_context := mapper_context m;
     mapper_routes := mapper_routes m ++ [(pattern r, method r)] |}.

(** [config.a if hasattr(config, a) else dflt] *)
Definition attr_or (w : World) (cfg : Config) (sec : section) (a : string) (dflt : pyval)
  : result pyval :=
  if sec_hasattr w cfg sec a then sec_getattr w cfg sec a else Ok dflt.

(** [Server(name, config)] *)
Definition Server_init (w : World) (cfg : Config) (nm : string) (sec : section)
  : result Server :=
  c1 ← attr_or w cfg sec "http_max_content_length" VNone;
  c2 ← attr_or w cfg sec "http_max_line_length" (VInt 10000);
  c3 ← attr_or w cfg sec "http_max_header_count" (VInt 100);
  c4 ← attr_or w cfg sec "hide_stack_trace" (VBool true);
  let context := {| http_max_content_length := c1; http_max_line_length := c2;
                    http_max_header_count := c3; hide_stack_trace := c4 |} in
  active ← attr_or w cfg sec "is_active" (VBool true);
  p ← sec_getattr w cfg sec "port" ≫= py_int;
  h ← (if sec_hasattr w cfg sec "handler" then
         hv ← sec_getattr w cfg sec "handler";
         match hv with
         | VStr path => _import w path true
         | _ => Raise TypeError
         end
       else Ok MicroRESTHandler);
  s ← (if sec_hasattr w cfg sec "ssl" then
         on ← sec_getattr w cfg sec "ssl.is_active";
         if truthy on then
           kf ← sec_getattr w cfg sec "ssl.keyfile";
           cf ← sec_getattr w cfg sec "ssl.certfile";
           Ok (Some {| keyfile := kf; certfile := cf |})
         else Ok None
       else Ok None);
  Ok {| name := nm;
        mapper := {| mapper_context := context; mapper_routes := [] |};
        is_active := active; port := p; handler := h; ssl := s; route := None |}.

(** [Server.add_route(pattern)] *)
Definition Server_add_route (s : Server) (pat : option string) : Server :=
  let m := match route s with
           | Some r => mapper_add (mapper s) r
           | None => mapper s
           end in
  {| name := name s; mapper := m; is_active := is_active s; port := port s;
     handler := handler s; ssl := ssl s; route := Some (Route_init pat) |}.

(** [Server.add_method(method, path)]; without an open route the attribute
    lookup [self.route] fails. *)
Definition Server_add_method (w : World) (s : Server) (m : string) (path : option string)
  : result Server :=
  match route s with
  | Some r =>
      r' ← Route_add w r m path;
      Ok {| name := name s; mapper := mapper s; is_active := is_active s; port := port s;
            handler := handler s; ssl := ssl s; route := Some r' |}
  | None => Raise (AttributeError "route")
  end.

(** ** The config directives *)

(** [_config_server(cfg, line)]: the namespace after the five [_define]
    calls, and the tuple of names returned. *)
Definition _config_server (cfg : Config) (line : string) : result (Config * list string) :=
  match split_ws line with
  | [name; port] =>
      p ← py_int (VStr port);
      cfg ← _define cfg (name +:+ ".port")
              {[ "value" := VInt p; "validator" := VValidator validate_int ]};
      cfg ← _define cfg (name +:+ ".is_active")
              {[ "value" := VBool true; "validator" := VValidator validate_bool ]};
      cfg ← _define cfg (name +:+ ".ssl.is_active")
              {[ "value" := VBool false; "validator" := VValidator validate_bool ]};
      cfg ← _define cfg (name +:+ ".ssl.keyfile")
              {[ "validator" := VValidator validate_file ]};
      cfg ← _define cfg (name +:+ ".ssl.certfile")
              {[ "validator" := VValidator validate_file ]};
      Ok (cfg, [name +:+ ".port"; name +:+ ".is_active"; name +:+ ".ssl.is_active";
                name +:+ ".ssl.keyfile"; name +:+ ".ssl.certfile"])
  | _ => Raise ValueError
  end.

(** [{n: v for n, v in (t.split('=', 1) for t in line.split())}] *)
Fixpoint kwargs_of (tokens : list string) (acc : gmap string pyval)
  : result (gmap string pyval) :=
  match tokens with
  | [] => Ok acc
  | t :: rest =>
      match split_once "=" t with
      | [n; v] => kwargs_of rest (<[n := VStr v]> acc)
      | _ => Raise ValueError
      end
  end.

(** [_config(cfg, line)]: the namespace after the [_define], and the name. *)
Definition _config (w : World) (cfg : Config) (line : string) : result (Config * string) :=
  match split_once " " line with
  | [name; line] =>
      kwargs ← kwargs_of (split_ws line) ∅;
      kwargs ← match kwargs !! "validate" with
               | Some v =>
                   f ← match v with
                       | VStr "int" => Ok validate_int
                       | VStr "bool" => Ok validate_bool
                       | VStr "file" => Ok validate_file
                       | _ => Raise UnrecognizedValidation
                       end;
                   Ok (<["validator" := VValidator f]> (delete "validate" kwargs))
               | None => Ok kwargs
               end;
      kwargs ← match kwargs !! "default" with
               | Some d =>
                   let kwargs := delete "default" (<["value" := d]> kwargs) in
                   match kwargs !! "validator" with
                   | Some (VValidator f) =>
                       v ← run_validator (isfile w) f d;
                       Ok (<["value" := v]> kwargs)
                   | Some _ => Raise TypeError     (* a str is not callable *)
                   | None => Ok kwargs
                   end
               | None => Ok kwargs
               end;
      cfg ← _define cfg name kwargs;
      Ok (cfg, name)
  | _ =>
      cfg ← _define cfg (hd EmptyString (split_once " " line)) ∅;
      Ok (cfg, hd EmptyString (split_once " " line))
  end.

(** ** The state machine *)

(** The five values [self.state] takes: the bound methods
    [state_init], [state_config], [state_server], [state_route], [state_done]. *)
Inductive fsm_state : Type := StInit | StConfig | StServer | StRoute | StDone.

(** The attributes of an [FSM], and two fields that are not attributes:
    [registry], the listeners [SERVER] holds, and [trace], the calls that
    left the module, oldest first. *)
Record FSM : Type := {
  state : fsm_state;
  teardown : pyref;
  config : Config;
  config_keys : list string;
  ports : gmap Z string;
  data : option string;
  server : option Server;
  registry : list Listener;
  trace : list call
}.

(** [FSM()] *)
Definition FSM_init : FSM :=
  {| state := StInit; teardown := NoTeardown; config := []; config_keys := [];
     ports := ∅; data := None; server := None; registry := []; trace := [] |}.

Definition set_state (x : fsm_state) (s : FSM) : FSM :=
  {| state := x; teardown := teardown s; config := config s;
     config_keys := config_keys s; ports := ports s; data := data s;
     server := server s; registry := registry s; trace := trace s |}.
Definition set_teardown (x : pyref) (s : FSM) : FSM :=
  {| state := state s; teardown := x; config := config s;
     config_keys := config_keys s; ports := ports s; data := data s;
     server := server s; registry := registry s; trace := trace s |}.
Definition set_config (x : Config) (s : FSM) : FSM :=
  {| state := state s; teardown := teardown s; config := x;
     config_keys := config_keys s; ports := ports s; data := data s;
     server := server s; registry := registry s; trace := trace s |}.
Definition set_config_keys (x : list string) (s : FSM) : FSM :=
  {| state := state s; teardown := teardown s; config := config s;
     config_keys := x; ports := ports s; data := data s;
     server := server s; registry := registry s; trace := trace s |}.
Definition set_ports (x : gmap Z string) (s : FSM) : FSM :=
  {| state := state s; teardown := teardown s; config := config s;
     config_keys := config_keys s; ports := x; data := data s;
     server := server s; registry := registry s; trace := trace s |}.
Definition set_data (x : option string) (s : FSM) : FSM :=
  {| state := state s; teardown := teardown s; config := config s;
     config_keys := config_keys s; ports := ports s; data := x;
     server := server s; registry := registry s; trace := trace s |}.
Definition set_server (x : option Server) (s : FSM) : FSM :=
  {| state := state s; teardown := teardown s; config := config s;
     config_keys := config_keys s; ports := ports s; data := data s;
     server := x; registry := registry s; trace := trace s |}.
Definition set_registry (x : list Listener) (s : FSM) : FSM :=
  {| state := state s; teardown := teardown s; config := config s;
     config_keys := config_keys s; ports := ports s; data := data s;
     server := server s; registry := x; trace := trace s |}.
Definition log_call (c : call) (s : FSM) : FSM :=
  {| state := state s; teardown := teardown s; config := config s;
     config_keys := config_keys s; ports := ports s; data := data s;
     server := server s; registry := registry s; trace := trace s ++ [c] |}.

(** Statements of a method of [FSM]: they update the object and either
    return or raise; what was assigned before a [raise] stays assigned. *)
Definition M (A : Type) : Type := FSM -> FSM * result A.

Global Instance M_ret : MRet M := fun _ a s => (s, Ok a).
Global Instance M_bind : MBind M := fun _ _ f m s =>
  match m s with
  | (s', Ok a) => f a s'
  | (s', Raise e) => (s', Raise e)
  end.

Definition raise {A} (e : exn) : M A := fun s => (s, Raise e).
Definition get : M FSM := fun s => (s, Ok s).
Definition modify (f : FSM -> FSM) : M unit := fun s => (f s, Ok tt).
Definition lift {A} (r : result A) : M A := fun s => (s, r).

(** [self.data] where the statement needs a string; on [None] it raises
    [e]: the AttributeError of [None.split] and [None.rsplit], the TypeError
    of [int(None)] and [getattr(o, None)]. *)
Definition self_data (e : exn) : M string :=
  s ← get; match data s with Some d => mret d | None => raise e end.

(** [self.server] *)
Definition self_server : M Server :=
  s ← get;
  match server s with Some srv => mret srv | None => raise (AttributeError "server") end.

(** [event in ('config', 'config_server')] *)
Definition is_config_event (event : string) : bool :=
  String.eqb event "config" || String.eqb event "config_server".

(** [Server.done()] on [self.server] *)
Definition Server_done (w : World) : M unit :=
  srv ← self_server;
  if truthy (is_active srv) then
    let srv :=
      match route srv with
      | Some r =>
          {| name := name srv; mapper := mapper_add (mapper srv) r;
             is_active := is_active srv; port := port srv; handler := handler srv;
             ssl := ssl srv; route := route srv |}
      | None => srv
      end in
    modify (set_server (Some srv));;
    let l := {| listen_port := port srv; listen_handler := handler srv;
                listen_mapper := mapper srv; listen_ssl := ssl srv |} in
    modify (log_call (CallAddServer l));;
    s ← get;
    lift (add_server w (registry s) l);;
    modify (set_registry (registry s ++ [l]))
  else mret tt.

(** The [server] branch of [state_init] and of [state_route], after the
    [self.server.done()] of the latter. *)
Definition open_server (w : World) : M unit :=
  d ← self_data TypeError;
  s ← get;
  sec ← lift (config_section (config s) d);
  srv ← lift (Server_init w (config s) d sec);
  modify (set_server (Some srv));;
  match ports s !! port srv with
  | Some owner => raise (PortAlreadyDefined (port srv) owner)
  | None =>
      modify (set_ports (<[port srv := name srv]> (ports s)));;
      modify (set_state StServer)
  end.

(** The [port] branch of [state_init] and of [state_route]. *)
Definition open_port (w : World) : M unit :=
  d ← self_data TypeError;
  p ← lift (py_int (VStr d));
  s ← get;
  srv ← lift (Server_init w (config s) "default" (PortOnly p));
  modify (set_server (Some srv));;
  modify (set_state StServer).

(** [FSM.state_init]; [self_state] is the call [self.state(event)]. *)
Definition state_init (w : World) (self_state : string -> M unit) (event : string)
  : M unit :=
  if is_config_event event then
    modify (set_state StConfig);;
    self_state event
  else if String.eqb event "setup" then
    s ← get;
    let path := match getenv w "MICRO_SETUP" with
                | Some v => Some v
                | None => data s
                end in
    f ← lift (_import_data w path);
    modify (log_call (CallSetup f (config s)));;
    cfg ← lift (match f with
                | Fn m fn => setup_call w m fn (config s)
                | _ => Raise TypeError
                end);
    modify (set_config cfg)
  else if String.eqb event "teardown" then
    d ← self_data (AttributeError "rsplit");
    f ← lift (_import w d false);
    modify (set_teardown f)
  else if String.eqb event "server" then open_server w
  else if String.eqb event "port" then open_port w
  else if String.eqb event "done" then modify (set_state StDone)
  else raise (InvalidRecord event).

(** [FSM.state_config] *)
Definition state_config (w : World) (self_state : string -> M unit) (event : string)
  : M unit :=
  if String.eqb event "config" then
    d ← self_data (AttributeError "split");
    s ← get;
    r ← lift (_config w (config s) d);
    modify (set_config r.1);;
    modify (set_config_keys (config_keys s ++ [r.2]))
  else if String.eqb event "config_server" then
    d ← self_data (AttributeError "split");
    s ← get;
    r ← lift (_config_server (config s) d);
    modify (set_config r.1);;
    modify (set_config_keys (config_keys s ++ r.2))
  else
    (if exists_config w then
       s ← get;
       modify (log_call (CallLoadOverride (config s)));;
       cfg ← lift (load_override w (config s));
       modify (set_config cfg)
     else mret tt);;
    modify (set_state StInit);;
    self_state event.

(** [FSM.state_server] *)
Definition state_server (w : World) (event : string) : M unit :=
  if String.eqb event "route" then
    srv ← self_server;
    s ← get;
    modify (set_server (Some (Server_add_route srv (data s))));;
    modify (set_state StRoute)
  else if String.eqb event "done" then
    Server_done w;;
    modify (set_state StDone)
  else raise (InvalidRecord event).

(** [event in ('get', 'post', 'put', 'delete')] *)
Definition is_method_event (event : string) : bool :=
  String.eqb event "get" || String.eqb event "post" ||
  String.eqb event "put" || String.eqb event "delete".

(** [FSM.state_route] *)
Definition state_route (w : World) (event : string) : M unit :=
  if is_method_event event then
    srv ← self_server;
    s ← get;
    srv ← lift (Server_add_method w srv event (data s));
    modify (set_server (Some srv))
  else if String.eqb event "route" then
    srv ← self_server;
    s ← get;
    modify (set_server (Some (Server_add_route srv (data s))))
  else if String.eqb event "server" then
    Server_done w;;
    open_server w
  else if String.eqb event "port" then
    Server_done w;;
    open_port w
  else if String.eqb event "done" then
    Server_done w;;
    modify (set_state StDone)
  else raise (InvalidRecord event).

(** [FSM.state_done] *)
Definition state_done (event : string) : M unit :=
  raise (UnexpectedEvent event).

(** [self.state(event)]: the method [self.state] is bound to at the moment
    of the call.  A handler calls it at most once more, so two levels are
    all a call can use; [depth] counts them. *)
Fixpoint self_state (w : World) (depth : nat) (event : string) : M unit :=
  match depth with
  | O => raise (External "self.state")
  | S d =>
      s ← get;
      match state s with
      | StInit => state_init w (self_state w d) event
      | StConfig => state_config w (self_state w d) event
      | StServer => state_server w event
      | StRoute => state_route w event
      | StDone => state_done event
      end
  end.

(** [FSM.handle(event, data, fname, linenum)] *)
Definition handle (w : World) (event : string) (d : option string)
    (fname : string) (linenum : nat) : M unit :=
  fun s =>
    match (modify (set_data d);; self_state w 2 event) s with
    | (s', Raise e) => (s', Raise (Located e linenum fname))
    | (s', Ok tt) => (s', Ok tt)
    end.

(** ** parse *)

(** What [parse] returns: the [config] tuple or the [control] tuple. *)
Inductive parsed : Type :=
| ConfigOnly (cfg : Config) (keys : list string)
| Control (sleep max_iterations : pyval) (teardown : pyref).

(** The [for fname, lnum, l in lines] loop. *)
Fixpoint parse_loop (w : World) (config_only : bool) (lines : list rawline) : M unit :=
  match lines with
  | [] => mret tt
  | (fname, lnum, l) :: rest =>
      match lex l with
      | Blank => parse_loop w config_only rest
      | BadLine e => raise e
      | Directive n v =>
          if config_only && negb (is_config_event n) then parse_loop w config_only rest
          else handle w n (Some v) fname lnum;; parse_loop w config_only rest
      end
  end.

(** [hasattr(fsm.config, a)] for a top-level name. *)
Definition config_hasattr (w : World) (cfg : Config) (a : string) : bool :=
  match find_key cfg a with
  | Some k => is_ok (key_resolved w k)
  | None => has_node cfg a
  end.

(** [parse] once [_load] has returned [lines].  The closing [done] is sent
    with the loop variables of the last line; there are none when [lines]
    is empty. *)
Definition parse_lines (w : World) (config_only : bool) (lines : list rawline) : M parsed :=
  parse_loop w config_only lines;;
  match last lines with
  | Some (fname, lnum, _) => handle w "done" None fname (S lnum)
  | None => raise NameError
  end;;
  s ← get;
  if config_only then mret (ConfigOnly (config s) (config_keys s))
  else if config_hasattr w (config s) "loop" then
    sleep ← lift (sec_getattr w (config s) (NamedSection "loop") "sleep");
    max_iterations ← lift (sec_getattr w (config s) (NamedSection "loop") "max_iterations");
    mret (Control sleep max_iterations (teardown s))
  else mret (Control (VInt 100) (VInt 100) (teardown s)).

(** [parse(s, config_only)]; [None] when the loader ran out of budget. *)
Definition parse (w : World) (fuel : nat) (s : string) (config_only : bool)
  : option (FSM * result parsed) :=
  match load (files w) fuel s with
  | None => None
  | Some (Raise e) => Some (FSM_init, Raise e)
  | Some (Ok lines) => Some (parse_lines w config_only lines FSM_init)
  end.

(** ** Streams of events, and what the trace is asked about *)

(** One call of [fsm.handle]: [(event, data, fname, linenum)]. *)
Definition event : Type := string * option string * string * nat.

(** The calls of [fsm.handle] the loop of [parse] makes for [lines], as long
    as every line lexes. *)
Fixpoint dispatched (config_only : bool) (lines : list rawline) : result (list event) :=
  match lines with
  | [] => Ok []
  | (fname, lnum, l) :: rest =>
      match lex l with
      | Blank => dispatched config_only rest
      | BadLine e => Raise e
      | Directive n v =>
          evs ← dispatched config_only rest;
          if config_only && negb (is_config_event n) then Ok evs
          else Ok ((n, Some v, fname, lnum) :: evs)
      end
  end.

(** A sequence of [fsm.handle] calls, stopping at the first that raises. *)
Fixpoint run_events (w : World) (evs : list event) : M unit :=
  match evs with
  | [] => mret tt
  | (ev, d, fname, lnum) :: rest => handle w ev d fname lnum;; run_events w rest
  end.

Definition event_name (e : event) : string := e.1.1.1.

(** How often the override file was handed to [Config._load]. *)
Definition is_override_load (c : call) : bool :=
  match c with CallLoadOverride _ => true | _ => false end.

Definition override_loads (t : list call) : nat :=
  List.length (List.filter is_override_load t).

(** The same world with another override file. *)
Definition with_override (w : World) (present : bool) (apply : Config -> result Config)
  : World :=
  {| files := files w; getenv := getenv w; isfile := isfile w;
     exists_config := present; load_override := apply;
     import_module := import_module w; module_attr := module_attr w;
     setup_call := setup_call w; add_server := add_server w |}.

(** The errors an event raises because the current state has no entry for
    it: 'invalid record ...' and 'unexpected event ...'. *)
Definition invalid_event_for_state (e : exn) (ev : string) : Prop :=
  e = InvalidRecord ev \/ e = UnexpectedEvent ev.

(** ** Worlds to run examples in *)

Definition files_of (fsys : list (string * list string)) : Files :=
  {| readlines f := snd <$> List.find (fun p => String.eqb (fst p) f) fsys;
     find_module _ := None |}.

(** Every import resolves, the setup function leaves the namespace alone,
    the registry accepts every listener, the environment is empty and the
    override file, when present, changes nothing. *)
Definition plain_world (fsys : list (string * list string)) (has_config : bool) : World :=
  {| files := files_of fsys; getenv _ := None; isfile _ := false;
     exists_config := has_config; load_override cfg := Ok cfg;
     import_module _ := None; module_attr _ _ := true;
     setup_call _ _ cfg := Ok cfg; add_server _ _ := Ok tt |}.

(** The lines of a file as [_load] returns them when it has no IMPORT. *)
Definition numbered (fname : string) (ls : list string) : list rawline :=
  imap (fun i l => (fname, S i, l)) ls.

(** A token of a directive: not empty, no white space. *)
Fixpoint has_space (s : string) : bool :=
  match s with
  | EmptyString => false
  | String c s' => is_space c || has_space s'
  end.

Definition is_token (s : string) : Prop := is_empty s = false /\ has_space s = false.

(** The five keys the docstring of the module lists for
    [CONFIG_SERVER <name> <port>]. *)
Definition server_keys (name : string) (port : Z) : list ConfigKey :=
  [ {| key_name := name +:+ ".port"; key_value := VInt port;
       key_validator := Some validate_int; key_env := None |};
    {| key_name := name +:+ ".is_active"; key_value := VBool true;
       key_validator := Some validate_bool; key_env := None |};
    {| key_name := name +:+ ".ssl.is_active"; key_value := VBool false;
       key_validator := Some validate_bool; key_env := None |};
    {| key_name := name +:+ ".ssl.keyfile"; key_value := VNone;
       key_validator := Some validate_file; key_env := None |};
    {| key_name := name +:+ ".ssl.certfile"; key_value := VNone;
       key_validator := Some validate_file; key_env := None |} ].

(** [expanding fs root stack fname st]: while [_load(root)] runs, the call
    [_load(fname, files, lines)] is made with the two lists as in [st], and
    [stack] holds the files whose loops have not finished, innermost first.
    Each step follows one IMPORT line of the file on top, the lines before
    it having been loaded. *)
Inductive expanding (fs : Files) (root : string)
  : list string -> string -> lstate -> Prop :=
| expanding_root : expanding fs root [] root ([], [])
| expanding_import stack fname st fuel pre l post import_fname target st' :
    expanding fs root stack fname st ->
    fname ∉ st.1 ->
    readlines fs fname = Some (pre ++ l :: post) ->
    load_lines fs (_load fs fuel) fname (dirname fname) 1%nat pre
      (st.1 ++ [fname], st.2) = Some (Ok st') ->
    import_fname_of l = Some import_fname ->
    resolve_import fs (dirname fname) import_fname = Ok target ->
    expanding fs root (fname :: stack) target st'.

(** What [readlines()] returns for a file with the given lines, each ended
    by a line feed. *)
Definition file_lines (ls : list string) : list string :=
  map (fun l => l +:+ String (ascii_of_nat 10) EmptyString) ls.

(** Two files that import each other. *)
Definition fs_cycle : Files :=
  files_of [("micro", file_lines ["PORT 1"; "IMPORT b"]);
            ("b", file_lines ["ROUTE /x"; "import micro"])].

(** A file that imports another one twice; nothing imports it back. *)
Definition fs_twice : Files :=
  files_of [("micro", file_lines ["import b"; "PORT 1"; "import b"]);
            ("b", file_lines ["CONFIG x"])].

(** A listener has been opened: the machine is past [state_init]. *)
Definition listener_open (s : FSM) : Prop :=
  state s = StServer \/ state s = StRoute \/ state s = StDone.

(** The line is a SERVER or a PORT directive. *)
Definition opens_listener (x : rawline) : bool :=
  match lex x.2 with
  | Directive n _ => String.eqb n "server" || String.eqb n "port"
  | _ => false
  end.

(** The transition table of the machine: the state a handler leaves
    [self.state] in when it returns, [None] where it raises for want of an
    entry.  [state_config] hands every event that is not a config directive
    to [state_init], and [state_init] hands the config directives to
    [state_config], so the two rows are the same. *)
Definition next_state (st : fsm_state) (ev : string) : option fsm_state :=
  match st with
  | StInit | StConfig =>
      if is_config_event ev then Some StConfig
      else if String.eqb ev "setup" || String.eqb ev "teardown" then Some StInit
      else if String.eqb ev "server" || String.eqb ev "port" then Some StServer
      else if String.eqb ev "done" then Some StDone
      else None
  | StServer =>
      if String.eqb ev "route" then Some StRoute
      else if String.eqb ev "done" then Some StDone
      else None
  | StRoute =>
      if is_method_event ev || String.eqb ev "route" then Some StRoute
      else if String.eqb ev "server" || String.eqb ev "port" then Some StServer
      else if String.eqb ev "done" then Some StDone
      else None
  | StDone => None
  end.

(** Whether handling [ev] in state [st] hands the override file to
    [Config._load]: only on the way out of [state_config]. *)
Definition leaves_config (w : World) (st : fsm_state) (ev : string) : bool :=
  match st with
  | StConfig => negb (is_config_event ev) && exists_config w
  | _ => false
  end.

(** The line is a CONFIG or a CONFIG_SERVER directive. *)
Definition config_line (x : rawline) : bool :=
  match lex x.2 with
  | Directive n _ => is_config_event n
  | _ => false
  end.

(** The example of the module docstring. *)
Definition ping_lines : list rawline :=
  numbered "micro" (file_lines ["PORT 12345"; "ROUTE /ping?"; "    GET handle.ping"]).

(** A world whose override file exists and cannot be loaded. *)
Definition broken_override_world : World :=
  with_override (plain_world [] true) true (fun _ => Raise (External "config")).

(** The event is a CONFIG or a CONFIG_SERVER directive. *)
Definition config_ev (e : event) : bool := is_config_event (event_name e).

(** A stream that opens with a block of config directives. *)
Definition config_first_lines : list rawline :=
  numbered "micro"
    (file_lines ["CONFIG_SERVER api 8080"; "CONFIG debug default=false validate=bool";
                 "SETUP app.start"; "SERVER api"; "ROUTE /a"; "GET app.a"]).

(** A world in which MICRO_SETUP is set and the setup function adds a key
    to the namespace it is given. *)
Definition setup_world : World :=
  {| files := files_of []; isfile _ := false;
     getenv k := if String.eqb k "MICRO_SETUP" then Some "ops.boot" else None;
     exists_config := false; load_override cfg := Ok cfg;
     import_module _ := None; module_attr _ _ := true;
     setup_call m f cfg :=
       Ok (cfg ++ [{| key_name := m +:+ "." +:+ f; key_value := VBool true;
                      key_validator := None; key_env := None |}]);
     add_server _ _ := Ok tt |}.

(** A registry that refuses a port it already listens on. *)
Definition strict_world (fsys : list (string * list string)) : World :=
  {| files := files_of fsys; getenv _ := None; isfile _ := false;
     exists_config := false; load_override cfg := Ok cfg;
     import_module _ := None; module_attr _ _ := true;
     setup_call _ _ cfg := Ok cfg;
     add_server regs l :=
       if existsb (fun r => listen_port r =? listen_port l) regs
       then Raise (External "address already in use") else Ok tt |}.

(** Two bare PORT directives with the same port. *)
Definition twice_port_file : list (string * list string) :=
  [("micro", file_lines ["PORT 8080"; "ROUTE /a"; "GET app.a";
                         "PORT 8080"; "ROUTE /b"; "GET app.b"])].







(** The server [srv] with another route table and another open route. *)
Definition with_routes (srv : Server) (closed : list (option string * gmap string pyref))
    (open : option Route) : Server :=
  {| name := name srv;
     mapper := {| mapper_context := mapper_context (mapper srv); mapper_routes := closed |};
     is_active := is_active srv; port := port srv; handler := handler srv;
     ssl := ssl srv; route := open |}.





(** A budget that was enough stays enough. *)
Definition extends (rec rec' : string -> lstate -> option (result lstate)) : Prop :=
  forall f st r, rec f st = Some r -> rec' f st = Some r.

(** [files] only grows, and a file that was loaded is in it. *)
Definition records (rec : string -> lstate -> option (result lstate)) : Prop :=
  forall f st st', rec f st = Some (Ok st') ->
    f ∈ st'.1 /\ forall x, x ∈ st.1 -> x ∈ st'.1.

(** ** Proof steps *)

(** Refutes membership in a list of string literals. *)
Ltac not_in_list :=
  let H := fresh in
  intros H; repeat (apply elem_of_cons in H as [H|H]; [discriminate H|]);
  inversion H.

(** Unfolds the handlers and the monad down to pairs. *)
Ltac munfold :=
  unfold handle, self_state, state_init, state_config, state_server, state_route,
    state_done, Server_done, open_server, open_port, self_data, self_server,
    modify, get, lift, raise, mbind, mret, M_bind, M_ret in *.

Ltac event_case ev name :=
  destruct (String.eqb_spec ev name) as [->|?].

Ltac other_event :=
  repeat match goal with
  | H : ?ev <> ?name |- _ =>
      rewrite (proj2 (String.eqb_neq ev name) H) in *; clear H
  end.

(** One goal for each directive name, and one for every other event. *)
Ltac event_cases ev :=
  event_case ev "config"; [|
  event_case ev "config_server"; [|
  event_case ev "setup"; [|
  event_case ev "teardown"; [|
  event_case ev "server"; [|
  event_case ev "port"; [|
  event_case ev "done"; [|
  event_case ev "route"; [|
  event_case ev "get"; [|
  event_case ev "post"; [|
  event_case ev "put"; [|
  event_case ev "delete"; [|
  other_event]]]]]]]]]]]].

(** Case analysis on the innermost scrutinee of [H] that is stuck. *)
Ltac inner_case H :=
  match type of H with
  | context [match ?x with _ => _ end] =>
      lazymatch x with
      | context [match _ with _ => _ end] => fail
      | _ => destruct x eqn:?
      end
  end.

Ltac inner_case_goal :=
  match goal with
  | |- context [match ?x with _ => _ end] =>
      lazymatch x with
      | context [match _ with _ => _ end] => fail
      | _ => destruct x eqn:?
      end
  end.

Ltac run_in H :=
  cbn in H; try discriminate H;
  repeat (inner_case H; cbn in H; try discriminate H).

(** The transition table run over a sequence of event names. *)
Fixpoint table_run (st : fsm_state) (evs : list string) : option fsm_state :=
  match evs with
  | [] => Some st
  | ev :: rest =>
      match next_state st ev with
      | Some st' => table_run st' rest
      | None => None
      end
  end.


(** The line is a directive named [done]. *)
Definition done_line (x : rawline) : bool :=
  match lex x.2 with
  | Directive n _ => String.eqb n "done"
  | _ => false
  end.

(** ** Definitions for the further properties *)


(** A file whose second line is a directive named [done]. *)
Definition written_done_lines : list rawline :=
  numbered "micro" (file_lines ["PORT 80"; "DONE now"; "ROUTE /a"]).

(** The line is an IMPORT line for [_load]. *)
Definition import_line (l : string) : bool :=
  match import_fname_of l with Some _ => true | None => false end.

(** [x] is the line at its own number in its own file, and is not an
    IMPORT line. *)
Definition in_place (fs : Files) (x : rawline) : Prop :=
  exists ls,
    readlines fs x.1.1 = Some ls /\
    (1 <= x.1.2)%nat /\
    ls !! (x.1.2 - 1)%nat = Some x.2 /\
    import_line x.2 = false.

(** How many of the paths in [universe] are not in [files] yet. *)
Definition remaining (universe files : list string) : nat :=
  List.length (filter (fun f => f ∉ files) universe).

(** Three files, the first importing the other two, the second the third. *)
Definition fs_tree : Files :=
  files_of [("micro", file_lines ["CONFIG a"; "import lib/b"; "PORT 80"]);
            ("lib/b", file_lines ["# shared"; "import c"; "CONFIG b"]);
            ("lib/c", file_lines ["CONFIG c"])].



(** The line is blank or holds a comment only. *)
Definition blank_line (x : rawline) : bool :=
  match lex x.2 with Blank => true | _ => false end.

(** The line is a TEARDOWN directive. *)
Definition teardown_line (x : rawline) : bool :=
  match lex x.2 with
  | Directive n _ => String.eqb n "teardown"
  | _ => false
  end.

(** Calls that reach outside the config namespace: the setup function and
    the listener registry. *)
Definition outward_call (c : call) : bool :=
  match c with
  | CallSetup _ _ | CallAddServer _ => true
  | CallLoadOverride _ => false
  end.

(** [load_config()]: [parse('micro', config_only=True).config]. *)
Definition load_config (w : World) (fuel : nat) : option (FSM * result Config) :=
  match parse w fuel "micro" true with
  | None => None
  | Some (s, Ok (ConfigOnly cfg _)) => Some (s, Ok cfg)
  | Some (s, Ok (Control _ _ _)) => Some (s, Raise (AttributeError "config"))
  | Some (s, Raise e) => Some (s, Raise e)
  end.

(** A micro file with everything in it. *)
Definition full_file : list (string * list string) :=
  [("micro", file_lines ["CONFIG_SERVER api 8080"; "SETUP app.start"; "TEARDOWN app.stop";
                         "SERVER api"; "ROUTE /a"; "GET app.a"])].

(** What holds of the machine as long as it has been sent config
    directives and [done] only. *)
Definition inside (s : FSM) : Prop :=
  (state s = StInit \/ state s = StConfig \/ state s = StDone) /\
  registry s = [] /\
  server s = None /\
  forallb (fun c => negb (outward_call c)) (trace s) = true.

(** A micro file whose GET names a path without a dot. *)
Definition bad_method_file : list (string * list string) :=
  [("micro", file_lines ["PORT 80"; "ROUTE /a"; "GET ping"])].

(** One file under two spellings, imported under both. *)
Definition fs_spellings : Files :=
  files_of [("micro", file_lines ["import b"; "import ./b"]);
            ("b", file_lines ["CONFIG x"]);
            ("./b", file_lines ["CONFIG x"])].

(** The validators [_config] knows by name. *)
Definition validator_named (k : string) : option validator :=
  if String.eqb k "int" then Some validate_int
  else if String.eqb k "bool" then Some validate_bool
  else if String.eqb k "file" then Some validate_file
  else None.

(** The server a bare [PORT p] stands for: active, plain HTTP, the
    built-in handler, the default limits, no route yet. *)
Definition default_server (p : Z) : Server :=
  {| name := "default";
     mapper := {| mapper_context :=
                    {| http_max_content_length := VNone;
                       http_max_line_length := VInt 10000;
                       http_max_header_count := VInt 100;
                       hide_stack_trace := VBool true |};
                  mapper_routes := [] |};
     is_active := VBool true; port := p; handler := MicroRESTHandler;
     ssl := None; route := None |}.

(** The listener [Server.done] hands over for [srv], its open route closed. *)
Definition closing_listener (srv : Server) : Listener :=
  {| listen_port := port srv; listen_handler := handler srv;
     listen_mapper := match route srv with
                      | Some r => mapper_add (mapper srv) r
                      | None => mapper srv
                      end;
     listen_ssl := ssl srv |}.

(** A registry that takes nothing. *)
Definition closed_world : World :=
  {| files := files_of []; getenv _ := None; isfile _ := false;
     exists_config := false; load_override cfg := Ok cfg;
     import_module _ := None; module_attr _ _ := true;
     setup_call _ _ cfg := Ok cfg;
     add_server _ _ := Raise (External "permission denied") |}.

(** [srv] switched off, as a section with [is_active = false] leaves it. *)
Definition inactive_of (srv : Server) : Server :=
  {| name := name srv; mapper := mapper srv; is_active := VBool false;
     port := port srv; handler := handler srv; ssl := ssl srv; route := route srv |}.

(** Case split on the first character of a string. *)
Ltac peel k :=
  destruct k as [|[[] [] [] [] [] [] [] []] k]; try reflexivity; try congruence.

(** * Properties *)

(** ** Strings *)

Lemma split_once_spec (sep : ascii) (s : string) :
  (contains sep s = false /\ split_once sep s = [s]) \/
  (exists a b, s = a +:+ String sep b /\ contains sep a = false /\
               split_once sep s = [a; b]).
Proof.
  induction s as [|c s IH]; simpl.
  - left. split; reflexivity.
  - rewrite (Ascii.eqb_sym sep c).
    destruct (Ascii.eqb c sep) eqn:E.
    + apply Ascii.eqb_eq in E. subst c.
      right. exists EmptyString, s. repeat split; reflexivity.
    + destruct IH as [[Hc Hs] | (a & b & Hs & Hc & Hsp)].
      * left. rewrite Hs. split; [exact Hc | reflexivity].
      * right. exists (String c a), b. rewrite Hsp. subst s. simpl.
        rewrite (Ascii.eqb_sym sep c), E. repeat split; [exact Hc].
Qed.

Lemma split_once_found (sep : ascii) (a b : string) :
  contains sep a = false -> split_once sep (a +:+ String sep b) = [a; b].
Proof.
  induction a as [|c a IH]; simpl; intros H.
  - rewrite Ascii.eqb_refl. reflexivity.
  - rewrite (Ascii.eqb_sym sep c) in H.
    destruct (Ascii.eqb c sep); [discriminate|].
    rewrite IH by exact H. reflexivity.
Qed.

Lemma split_once_missing (sep : ascii) (s : string) :
  contains sep s = false -> split_once sep s = [s].
Proof.
  intros H. destruct (split_once_spec sep s) as [[_ Hs] | (a & b & Hs & _ & _)];
    [exact Hs|].
  subst s. exfalso. revert H. clear. induction a as [|c a IH]; simpl.
  - rewrite Ascii.eqb_refl. discriminate.
  - destruct (Ascii.eqb sep c); [discriminate | exact IH].
Qed.

Lemma is_empty_true (s : string) : is_empty s = true <-> s = EmptyString.
Proof. destruct s; simpl; split; congruence. Qed.

(** ** The lexer *)

(** C6, as the code has it.  The text before the first "#" is stripped; a
    line that is then empty is skipped; otherwise the line is cut at its first
    space character into a lower-cased name and the rest, taken as it
    stands, and a line without any space raises the ValueError of the
    unpacking instead of yielding an event. *)
Theorem lex_first_space (l : string) :
  exists text,
    contains "#" text = false /\
    (l = text \/ exists comment, l = text +:+ String "#" comment) /\
    (strip text = EmptyString -> lex l = Blank) /\
    (strip text <> EmptyString -> contains " " (strip text) = false ->
     lex l = BadLine ValueError) /\
    (forall n v, strip text = n +:+ String " " v -> contains " " n = false ->
     lex l = Directive (lower n) v).
Proof.
  unfold lex.
  destruct (split_once_spec "#" l) as [[Hc Hs] | (a & b & Hl & Hc & Hs)].
  - exists l. rewrite Hs. simpl. split; [exact Hc|]. split; [left; reflexivity|].
    split; [|split].
    + intros ->. reflexivity.
    + intros Hne Hsp. destruct (is_empty (strip l)) eqn:E.
      * apply is_empty_true in E. contradiction.
      * rewrite (split_once_missing _ _ Hsp). reflexivity.
    + intros n v Hn Hsp. rewrite Hn.
      rewrite (split_once_found _ _ _ Hsp).
      destruct n; reflexivity.
  - exists a. rewrite Hs. simpl. split; [exact Hc|].
    split; [right; exists b; exact Hl|]. split; [|split].
    + intros ->. reflexivity.
    + intros Hne Hsp. destruct (is_empty (strip a)) eqn:E.
      * apply is_empty_true in E. contradiction.
      * rewrite (split_once_missing _ _ Hsp). reflexivity.
    + intros n v Hn Hsp. rewrite Hn.
      rewrite (split_once_found _ _ _ Hsp).
      destruct n; reflexivity.
Qed.

(** C6, refuted as stated: a line holding the single token "PORT" yields no
    event with an empty rest, it raises; a tab does not separate; and of
    two spaces only the first is consumed. *)
Lemma lex_single_token_raises :
  lex "PORT" = BadLine ValueError /\
  lex (String "P" (String "O" (String "R" (String "T"
         (String (ascii_of_nat 9) "80"))))) = BadLine ValueError /\
  lex "PORT  80" = Directive "port" " 80" /\
  parse_lines (plain_world [] false) false [("micro", 1%nat, "PORT")] FSM_init =
    (FSM_init, Raise ValueError).
Proof. repeat split; vm_compute; reflexivity. Qed.

Lemma app_cons (c : ascii) (s t : string) : String c s +:+ t = String c (s +:+ t).
Proof. reflexivity. Qed.

Lemma app_empty_r (s : string) : s +:+ EmptyString = s.
Proof.
  induction s as [|c s IH]; [reflexivity | rewrite app_cons, IH; reflexivity].
Qed.

Lemma app_assoc_str (a b c : string) : (a +:+ b) +:+ c = a +:+ (b +:+ c).
Proof.
  induction a as [|x a IH]; [reflexivity | rewrite !app_cons, IH; reflexivity].
Qed.

Lemma split_ws_aux_token (s r t : string) :
  has_space s = false ->
  split_ws_aux (Some t) (s +:+ r) = split_ws_aux (Some (t +:+ s)) r.
Proof.
  revert t. induction s as [|c s IH]; intros t H.
  - rewrite (app_empty_r t). reflexivity.
  - simpl in H. apply orb_false_iff in H as [Hc Hs].
    rewrite app_cons. cbn [split_ws_aux]. rewrite Hc.
    rewrite (IH _ Hs), app_assoc_str. reflexivity.
Qed.

Lemma split_ws_token (s r : string) :
  is_token s -> split_ws_aux None (s +:+ r) = split_ws_aux (Some s) r.
Proof.
  intros [Hne Hsp]. destruct s as [|c s]; [discriminate|].
  simpl in Hsp. apply orb_false_iff in Hsp as [Hc Hs].
  rewrite app_cons. cbn [split_ws_aux]. rewrite Hc.
  apply (split_ws_aux_token s r (String c EmptyString) Hs).
Qed.

Lemma split_ws_two (a b : string) :
  is_token a -> is_token b -> split_ws (a +:+ " " +:+ b) = [a; b].
Proof.
  intros Ha Hb. unfold split_ws. rewrite (split_ws_token _ _ Ha).
  rewrite app_cons. cbn [split_ws_aux is_space]. simpl.
  change (EmptyString +:+ b) with b.
  rewrite <- (app_empty_r b) at 1. rewrite (split_ws_token _ _ Hb). reflexivity.
Qed.

Lemma digit_not_space (c : ascii) : is_digit c = true -> is_space c = false.
Proof.
  destruct c as [[] [] [] [] [] [] [] []]; vm_compute; congruence.
Qed.

Lemma all_digits_no_space (s : string) : all_digits s = true -> has_space s = false.
Proof.
  induction s as [|c s IH]; simpl; [reflexivity|].
  intros H. apply andb_true_iff in H as [Hc Hs].
  rewrite (digit_not_space _ Hc), (IH Hs). reflexivity.
Qed.

Lemma rstrip_no_space (s : string) : has_space s = false -> rstrip s = s.
Proof.
  induction s as [|c s IH]; simpl; [reflexivity|].
  intros H. apply orb_false_iff in H as [Hc Hs]. rewrite Hc, (IH Hs). reflexivity.
Qed.

Lemma strip_no_space (s : string) : has_space s = false -> strip s = s.
Proof.
  intros H. unfold strip.
  assert (lstrip s = s) as ->.
  { destruct s as [|c s]; [reflexivity|]. simpl in *.
    apply orb_false_iff in H as [-> _]. reflexivity. }
  apply rstrip_no_space, H.
Qed.

Lemma int_of_digits (s : string) :
  is_empty s = false -> all_digits s = true ->
  int_of_string s = Some (digits_value 0 s).
Proof.
  intros Hne Hd. unfold int_of_string.
  rewrite (strip_no_space _ (all_digits_no_space _ Hd)).
  destruct s as [|c s]; [discriminate|].
  assert (is_digit c = true) as Hc by (simpl in Hd; apply andb_true_iff in Hd; tauto).
  destruct c as [[] [] [] [] [] [] [] []]; try (vm_compute in Hc; congruence);
    simpl negb; rewrite Hd; reflexivity.
Qed.

(** ** The config directives *)

Lemma define_value_validator (cfg : Config) (name : string) (v : pyval) (f : validator) :
  _define cfg name {[ "value" := v; "validator" := VValidator f ]} =
  Ok (cfg ++ [{| key_name := name; key_value := v;
                 key_validator := Some f; key_env := None |}]).
Proof. reflexivity. Qed.

Lemma define_validator (cfg : Config) (name : string) (f : validator) :
  _define cfg name {[ "validator" := VValidator f ]} =
  Ok (cfg ++ [{| key_name := name; key_value := VNone;
                 key_validator := Some f; key_env := None |}]).
Proof. reflexivity. Qed.

(** What [_config_server] does with a name and a port number. *)
Lemma config_server_defines (cfg : Config) (name port : string) :
  is_token name -> is_empty port = false -> all_digits port = true ->
  _config_server cfg (name +:+ " " +:+ port) =
    Ok (cfg ++ server_keys name (digits_value 0 port),
        [name +:+ ".port"; name +:+ ".is_active"; name +:+ ".ssl.is_active";
         name +:+ ".ssl.keyfile"; name +:+ ".ssl.certfile"]).
Proof.
  intros Hname Hne Hd.
  unfold _config_server.
  rewrite split_ws_two; [|exact Hname|split; [exact Hne|apply all_digits_no_space, Hd]].
  unfold py_int. rewrite (int_of_digits _ Hne Hd).
  cbn [mbind result_bind].
  rewrite !define_value_validator. cbn [mbind result_bind].
  rewrite !define_value_validator. cbn [mbind result_bind].
  rewrite !define_value_validator. cbn [mbind result_bind].
  rewrite !define_validator. cbn [mbind result_bind].
  rewrite !define_validator. cbn [mbind result_bind].
  unfold server_keys. rewrite <- !app_assoc. reflexivity.
Qed.

(** ** The loader *)

Lemma load_lines_app fs rec fname dir pre post : forall n st,
  load_lines fs rec fname dir n (pre ++ post) st =
  match load_lines fs rec fname dir n pre st with
  | Some (Ok st') => load_lines fs rec fname dir (n + List.length pre)%nat post st'
  | other => other
  end.
Proof.
  induction pre as [|l pre IH]; intros n st; simpl.
  - rewrite Nat.add_0_r. reflexivity.
  - destruct (import_fname_of l) as [i|].
    + destruct (resolve_import fs dir i) as [t|e]; [|reflexivity].
      destruct (rec t st) as [[st'|e]|]; [|reflexivity..].
      rewrite IH. replace (S n + List.length pre)%nat with (n + S (List.length pre))%nat by lia.
      reflexivity.
    + rewrite IH. replace (S n + List.length pre)%nat with (n + S (List.length pre))%nat by lia.
      reflexivity.
Qed.

Lemma load_lines_extends fs rec rec' fname dir ls :
  extends rec rec' -> forall n st r,
  load_lines fs rec fname dir n ls st = Some r ->
  load_lines fs rec' fname dir n ls st = Some r.
Proof.
  intros Hext. induction ls as [|l ls IH]; intros n st r; simpl; [auto|].
  destruct (import_fname_of l) as [i|]; [|apply IH].
  destruct (resolve_import fs dir i) as [t|e]; [|auto].
  destruct (rec t st) as [[st'|e]|] eqn:E; [| |discriminate].
  - rewrite (Hext _ _ _ E). apply IH.
  - rewrite (Hext _ _ _ E). auto.
Qed.

Lemma load_fuel_S fs fuel : extends (_load fs fuel) (_load fs (S fuel)).
Proof.
  induction fuel as [|k IH]; intros f st r; [discriminate|].
  intros H. simpl in H. cbn [_load].
  destruct (bool_decide (f ∈ st.1)); [exact H|].
  destruct (readlines fs f) as [ls|]; [|exact H].
  exact (load_lines_extends _ _ _ _ _ _ IH _ _ _ H).
Qed.

Lemma load_fuel_le fs k k' : (k <= k')%nat -> extends (_load fs k) (_load fs k').
Proof.
  induction 1 as [|k' _ IH]; intros f st r H; [exact H|].
  apply load_fuel_S, IH, H.
Qed.

Lemma load_lines_grows fs rec fname dir ls :
  records rec -> forall n st st',
  load_lines fs rec fname dir n ls st = Some (Ok st') ->
  forall x, x ∈ st.1 -> x ∈ st'.1.
Proof.
  intros Hrec. induction ls as [|l ls IH]; intros n st st'; simpl.
  - intros [= <-]. auto.
  - destruct (import_fname_of l) as [i|].
    + destruct (resolve_import fs dir i) as [t|e]; [|discriminate].
      destruct (rec t st) as [[st1|e]|] eqn:E; [|discriminate..].
      intros H x Hx. apply (IH _ _ _ H). apply (Hrec _ _ _ E), Hx.
    + intros H x Hx. apply (IH _ _ _ H). exact Hx.
Qed.

Lemma load_records fs fuel : records (_load fs fuel).
Proof.
  induction fuel as [|k IH]; intros f st st'; [discriminate|].
  cbn [_load]. destruct (bool_decide (f ∈ st.1)); [discriminate|].
  destruct (readlines fs f) as [ls|]; [|discriminate].
  intros H. pose proof (load_lines_grows _ _ _ _ _ IH _ _ _ H) as G. simpl in G.
  split.
  - apply G. apply elem_of_app. right. apply list_elem_of_singleton. reflexivity.
  - intros x Hx. apply G. apply elem_of_app. left. exact Hx.
Qed.

Lemma load_again_raises fs fuel fname st :
  fname ∈ st.1 -> _load fs (S fuel) fname st = Some (Raise (RecursiveImport fname)).
Proof. intros H. cbn [_load]. rewrite bool_decide_eq_true_2 by exact H. reflexivity. Qed.

Lemma expanding_stack_recorded fs root stack fname st :
  expanding fs root stack fname st -> forall x, x ∈ stack -> x ∈ st.1.
Proof.
  induction 1 as [|stack fname st fuel pre l post i target st' _ IH _ _ Hpre _ _];
    intros x Hx.
  - inversion Hx.
  - pose proof (load_lines_grows _ _ _ _ _ (load_records fs fuel) _ _ _ Hpre) as G.
    simpl in G. apply G. apply elem_of_app.
    apply elem_of_cons in Hx as [-> | Hx].
    + right. apply list_elem_of_singleton. reflexivity.
    + left. apply IH, Hx.
Qed.

(** An exception raised in a call that is being expanded is the exception
    the outermost call ends with. *)
Lemma expanding_raise fs root stack fname st :
  expanding fs root stack fname st ->
  forall k e, _load fs k fname st = Some (Raise e) ->
  exists k0, forall k', (k0 <= k')%nat -> _load fs k' root ([], []) = Some (Raise e).
Proof.
  induction 1 as [|stack fname st fuel pre l post i target st' _ IH Hnew Hread Hpre Hi Ht];
    intros k e Hk.
  - exists k. intros k' Hle. exact (load_fuel_le _ _ _ Hle _ _ _ Hk).
  - apply (IH (S (Nat.max k fuel)) e).
    cbn [_load]. rewrite bool_decide_eq_false_2 by exact Hnew.
    rewrite Hread, load_lines_app.
    rewrite (load_lines_extends _ _ _ _ _ _
               (load_fuel_le fs fuel (Nat.max k fuel) (Nat.le_max_r _ _)) _ _ _ Hpre).
    simpl. rewrite Hi, Ht.
    rewrite (load_fuel_le fs k (Nat.max k fuel) (Nat.le_max_l _ _) _ _ _ Hk).
    reflexivity.
Qed.

(** C7.  When the expansion of [root] reaches an IMPORT of a file that is
    still being expanded, the load ends, for every sufficient budget, with
    the recursive-import error naming that file; no lines are returned. *)
Theorem cyclic_import_raises fs root stack fname st :
  expanding fs root stack fname st ->
  fname ∈ stack ->
  exists k0, forall k, (k0 <= k)%nat ->
    load fs k root = Some (Raise (RecursiveImport fname)).
Proof.
  intros Hexp Hin.
  pose proof (expanding_stack_recorded _ _ _ _ _ Hexp _ Hin) as Hrec.
  destruct (expanding_raise _ _ _ _ _ Hexp 1%nat _ (load_again_raises fs 0 _ _ Hrec))
    as [k0 Hk0].
  exists k0. intros k Hle. unfold load. rewrite (Hk0 k Hle). reflexivity.
Qed.

(** [micro] imports [b] and [b] imports [micro] back. *)
Lemma cyclic_import_example :
  exists k0, forall k, (k0 <= k)%nat ->
    load fs_cycle k "micro" = Some (Raise (RecursiveImport "micro")).
Proof.
  apply (cyclic_import_raises fs_cycle "micro" ["b"; "micro"] "micro"
           (["micro"; "b"], [("micro", 1%nat, hd "" (file_lines ["PORT 1"]));
                             ("b", 1%nat, hd "" (file_lines ["ROUTE /x"]))])).
  - apply (expanding_import fs_cycle "micro" ["micro"] "b"
             (["micro"], [("micro", 1%nat, hd "" (file_lines ["PORT 1"]))])
             0%nat (file_lines ["ROUTE /x"]) (hd "" (file_lines ["import micro"])) []
             "micro" "micro").
    + apply (expanding_import fs_cycle "micro" [] "micro" ([], [])
               0%nat (file_lines ["PORT 1"]) (hd "" (file_lines ["IMPORT b"])) []
               "b" "b").
      * apply expanding_root.
      * not_in_list.
      * reflexivity.
      * reflexivity.
      * reflexivity.
      * reflexivity.
    + not_in_list.
    + reflexivity.
    + reflexivity.
    + reflexivity.
    + reflexivity.
  - apply elem_of_cons. right. apply elem_of_cons. left. reflexivity.
Defined.

(** A budget of three calls is enough there. *)
Example cyclic_import_run :
  load fs_cycle 3 "micro" = Some (Raise (RecursiveImport "micro")).
Proof. reflexivity. Qed.

(** C2, on the code.  [files] is appended to and never shortened, so it
    holds every file loaded so far and not only the ones being expanded.
    A file whose lines import the same path twice therefore never loads:
    the second IMPORT finds the path in [files]. *)
Theorem import_twice_never_loads fs fname l1s a l2s b l3s ia ib target :
  readlines fs fname = Some (l1s ++ a :: l2s ++ b :: l3s) ->
  import_fname_of a = Some ia ->
  resolve_import fs (dirname fname) ia = Ok target ->
  import_fname_of b = Some ib ->
  resolve_import fs (dirname fname) ib = Ok target ->
  forall fuel st st', _load fs fuel fname st <> Some (Ok st').
Proof.
  intros Hread Ha Hta Hb Htb fuel st st'.
  destruct fuel as [|k]; [discriminate|].
  cbn [_load]. destruct (bool_decide (fname ∈ st.1)); [discriminate|].
  rewrite Hread, load_lines_app.
  destruct (load_lines fs (_load fs k) fname (dirname fname) 1 l1s _)
    as [[st1|e]|]; [|discriminate..].
  cbn [load_lines]. rewrite Ha, Hta.
  destruct (_load fs k target st1) as [[st2|e]|] eqn:E2; [|discriminate..].
  rewrite load_lines_app.
  destruct (load_lines fs (_load fs k) fname (dirname fname) _ l2s st2)
    as [[st3|e]|] eqn:E3; [|discriminate..].
  cbn [load_lines]. rewrite Hb, Htb.
  assert (target ∈ st3.1) as Hin.
  { apply (load_lines_grows _ _ _ _ _ (load_records fs k) _ _ _ E3).
    exact (proj1 (load_records fs k _ _ _ E2)). }
  destruct k as [|k]; [discriminate|].
  rewrite (load_again_raises fs k _ _ Hin). discriminate.
Qed.

(** [micro] imports [b], goes on, and imports [b] again: the second IMPORT
    raises, with a budget of two calls. *)
Lemma import_twice_example :
  (forall fuel st st', _load fs_twice fuel "micro" st <> Some (Ok st')) /\
  load fs_twice 2 "micro" = Some (Raise (RecursiveImport "b")).
Proof.
  split.
  - apply (import_twice_never_loads fs_twice "micro" []
             (hd "" (file_lines ["import b"])) (file_lines ["PORT 1"])
             (hd "" (file_lines ["import b"])) [] "b" "b" "b");
      reflexivity.
  - reflexivity.
Defined.

(** ** The state machine *)

Local Opaque Server_init _import config_section _config _config_server py_int
  Server_add_route Server_add_method mapper_add truthy.

(** The machine follows its transition table. *)
Lemma handle_state w ev d fname n s s' :
  handle w ev d fname n s = (s', Ok tt) -> next_state (state s) ev = Some (state s').
Proof.
  intros H. munfold. unfold next_state, is_config_event, is_method_event in *.
  destruct s as [st td cfg keys pts dat srv reg tr]. cbn [state] in *.
  event_cases ev; destruct st; cbn in H |- *; try discriminate H;
    run_in H; try (injection H as <-); reflexivity.
Qed.

Lemma filter_loads_app (t1 t2 : list call) :
  override_loads (t1 ++ t2) = (override_loads t1 + override_loads t2)%nat.
Proof. unfold override_loads. rewrite List.filter_app, length_app. reflexivity. Qed.

(** The override file is loaded on the way out of [state_config] and
    nowhere else, whether the handler then returns or raises. *)
Lemma handle_loads w ev d fname n s s' r :
  handle w ev d fname n s = (s', r) ->
  override_loads (trace s') =
    (override_loads (trace s) + if leaves_config w (state s) ev then 1 else 0)%nat.
Proof.
  intros H. munfold. unfold leaves_config, is_config_event, is_method_event in *.
  destruct s as [st td cfg keys pts dat srv reg tr]. cbn [state trace] in *.
  event_cases ev; destruct st; cbn [negb andb orb String.eqb Ascii.eqb Bool.eqb];
    run_in H; injection H as <- <-; cbn [trace set_state set_data set_config
      set_config_keys set_ports set_server set_registry set_teardown log_call];
    rewrite ?filter_loads_app; cbn [override_loads List.filter is_override_load length];
    lia.
Qed.

Lemma next_state_listener_open st ev st' :
  st = StServer \/ st = StRoute \/ st = StDone ->
  next_state st ev = Some st' ->
  st' = StServer \/ st' = StRoute \/ st' = StDone.
Proof.
  unfold next_state. intros [-> | [-> | ->]] H;
    repeat (match type of H with context [if ?b then _ else _] => destruct b end);
    simplify_eq; auto.
Qed.

Lemma handle_listener_open w ev d fname n s s' :
  listener_open s -> handle w ev d fname n s = (s', Ok tt) -> listener_open s'.
Proof.
  intros Hs H. apply handle_state in H.
  exact (next_state_listener_open _ _ _ Hs H).
Qed.

Lemma handle_opens w ev d fname n s s' :
  String.eqb ev "server" || String.eqb ev "port" = true ->
  handle w ev d fname n s = (s', Ok tt) -> listener_open s'.
Proof.
  intros Hev H. apply handle_state in H. left.
  apply orb_true_iff in Hev as [Hev | Hev]; apply String.eqb_eq in Hev; subst ev;
    destruct (state s); cbn in H; congruence.
Qed.

Lemma handle_config_rejected w ev d fname n s :
  listener_open s -> is_config_event ev = true ->
  exists e, invalid_event_for_state e ev /\
    handle w ev d fname n s = (set_data d s, Raise (Located e n fname)).
Proof.
  unfold listener_open, invalid_event_for_state, is_config_event.
  intros Hs Hev. munfold.
  destruct s as [st td cfg keys pts dat srv reg tr]; cbn [state] in *.
  apply orb_true_iff in Hev as [Hev | Hev]; apply String.eqb_eq in Hev; subst ev;
    destruct Hs as [-> | [-> | ->]]; cbn; eauto.
Qed.

Lemma parse_loop_app w co pre post s :
  parse_loop w co (pre ++ post) s =
  match parse_loop w co pre s with
  | (s', Ok tt) => parse_loop w co post s'
  | (s', Raise e) => (s', Raise e)
  end.
Proof.
  revert s. induction pre as [|[[f n] l] pre IH]; intros s; [reflexivity|].
  cbn [parse_loop app]. destruct (lex l) as [|ev v|e]; [apply IH| |reflexivity].
  destruct (co && negb (is_config_event ev)); [apply IH|].
  unfold mbind, M_bind.
  destruct (handle w ev (Some v) f n s) as [s1 [[]|e]]; [apply IH | reflexivity].
Qed.

Lemma parse_loop_listener_open w pre : forall s0 s,
  parse_loop w false pre s0 = (s, Ok tt) ->
  listener_open s0 \/ existsb opens_listener pre = true ->
  listener_open s.
Proof.
  induction pre as [|[[f n] l] pre IH]; intros s0 s H Hor.
  - cbn in H. injection H as <-. destruct Hor as [Hor|Hor]; [exact Hor|discriminate].
  - cbn [parse_loop] in H. cbn [existsb] in Hor. unfold opens_listener in Hor at 1.
    cbn [snd] in Hor.
    destruct (lex l) as [|ev v|e]; [exact (IH _ _ H Hor)| |discriminate].
    cbn [andb] in H. unfold mbind, M_bind in H.
    destruct (handle w ev (Some v) f n s0) as [s1 [[]|e]] eqn:E; [|discriminate].
    apply (IH _ _ H). destruct Hor as [Hor | Hor].
    + left. exact (handle_listener_open _ _ _ _ _ _ _ Hor E).
    + apply orb_true_iff in Hor as [Hor | Hor]; [|right; exact Hor].
      left. exact (handle_opens _ _ _ _ _ _ _ Hor E).
Qed.

(** C1, as the code has it.  In a full parse, a CONFIG or CONFIG_SERVER
    line that is reached after a SERVER or PORT directive was accepted is
    refused with 'invalid record' or 'unexpected event', located at its own
    line, and the machine is left as it was but for [self.data]. *)
Theorem late_config_rejected w pre post fname n l ev v s :
  parse_loop w false pre FSM_init = (s, Ok tt) ->
  existsb opens_listener pre = true ->
  lex l = Directive ev v ->
  is_config_event ev = true ->
  exists e, invalid_event_for_state e ev /\
    parse_lines w false (pre ++ (fname, n, l) :: post) FSM_init =
      (set_data (Some v) s, Raise (Located e n fname)).
Proof.
  intros Hpre Hopen Hlex Hev.
  assert (listener_open s) as Hs
    by exact (parse_loop_listener_open _ _ _ _ Hpre (or_intror Hopen)).
  destruct (handle_config_rejected w ev (Some v) fname n s Hs Hev) as (e & He & Hh).
  exists e. split; [exact He|].
  unfold parse_lines. unfold mbind at 1 2. unfold M_bind at 1 2.
  rewrite parse_loop_app, Hpre. cbn [parse_loop]. rewrite Hlex. cbn [andb].
  unfold mbind at 1. unfold M_bind at 1. rewrite Hh. reflexivity.
Qed.

(** PORT, ROUTE, then CONFIG on line 3. *)
Lemma late_config_example :
  exists e, invalid_event_for_state e "config" /\
    parse_lines (plain_world [] false) false
      (numbered "micro" (file_lines ["PORT 80"; "ROUTE /a"]) ++
       [("micro", 3%nat, "CONFIG late")]) FSM_init =
      (set_data (Some "late")
         (parse_loop (plain_world [] false) false
            (numbered "micro" (file_lines ["PORT 80"; "ROUTE /a"])) FSM_init).1,
       Raise (Located e 3 "micro")).
Proof.
  apply (late_config_rejected (plain_world [] false)
           (numbered "micro" (file_lines ["PORT 80"; "ROUTE /a"])) []
           "micro" 3%nat "CONFIG late" "config" "late").
  - vm_compute. reflexivity.
  - reflexivity.
  - reflexivity.
  - reflexivity.
Defined.

(** C1, refuted as stated.  After SETUP and TEARDOWN the machine is still in
    [state_init], which accepts a config directive: the parse returns and
    the late key is registered.  With [config_only] the other directives
    are never sent to the machine, so nothing is refused either. *)
Lemma late_config_accepted :
  (exists s,
     parse (plain_world
              [("micro", file_lines ["SETUP app.start"; "TEARDOWN app.stop"; "CONFIG late"])]
              false) 1 "micro" false =
       Some (s, Ok (Control (VInt 100) (VInt 100) (Fn "app" "stop"))) /\
     config_keys s = ["late"]) /\
  (exists s,
     parse (plain_world [("micro", file_lines ["PORT 80"; "CONFIG late"])] false)
       1 "micro" true =
       Some (s, Ok (ConfigOnly
                      [{| key_name := "late"; key_value := VNone;
                          key_validator := None; key_env := None |}]
                      ["late"]))).
Proof. split; eexists; [split|]; vm_compute; reflexivity. Qed.

(** ** The override file *)

Lemma next_state_not_config st ev st' :
  is_config_event ev = false -> next_state st ev = Some st' -> st' <> StConfig.
Proof.
  unfold next_state. intros Hev H. rewrite Hev in H.
  destruct st;
    repeat (match type of H with context [if ?b then _ else _] => destruct b end);
    simplify_eq; discriminate.
Qed.

(** An event that is not a config directive, met outside [state_config],
    leaves the machine outside [state_config], also when it raises. *)
Lemma handle_not_config w ev d fname n s s' r :
  state s <> StConfig -> is_config_event ev = false ->
  handle w ev d fname n s = (s', r) -> state s' <> StConfig.
Proof.
  intros Hs Hev H. munfold. unfold is_config_event, is_method_event in *.
  destruct s as [st td cfg keys pts dat srv reg tr]. cbn [state] in *.
  event_cases ev; try discriminate Hev; destruct st; try contradiction;
    run_in H; injection H as <- <-; cbn; discriminate.
Qed.

(** Outside [state_config] an event that is not a config directive is
    handled without a look at the override file. *)
Lemma handle_with_override w present apply ev d fname n s :
  state s <> StConfig -> is_config_event ev = false ->
  handle (with_override w present apply) ev d fname n s = handle w ev d fname n s.
Proof.
  intros Hs Hev. unfold handle, mbind, M_bind, modify. cbn [self_state].
  unfold mbind, M_bind, get.
  destruct s as [st td cfg keys pts dat srv reg tr]. cbn [state set_data] in *.
  destruct st; try contradiction; try reflexivity.
  unfold state_init. rewrite Hev. reflexivity.
Qed.

Lemma parse_loop_no_config w present apply co lines : forall s,
  forallb (fun x => negb (config_line x)) lines = true ->
  state s <> StConfig ->
  parse_loop (with_override w present apply) co lines s = parse_loop w co lines s /\
  state (parse_loop w co lines s).1 <> StConfig /\
  override_loads (trace (parse_loop w co lines s).1) = override_loads (trace s).
Proof.
  induction lines as [|[[f n] l] lines IH]; intros s Hall Hs.
  - cbn. auto.
  - cbn [forallb] in Hall. apply andb_true_iff in Hall as [Hl Hall].
    unfold config_line in Hl. cbn [snd] in Hl. cbn [parse_loop].
    destruct (lex l) as [|ev v|e]; [exact (IH _ Hall Hs)| |cbn; auto].
    apply negb_true_iff in Hl.
    destruct (co && negb (is_config_event ev)); [exact (IH _ Hall Hs)|].
    unfold mbind, M_bind. rewrite (handle_with_override _ _ _ _ _ _ _ _ Hs Hl).
    destruct (handle w ev (Some v) f n s) as [s1 [[]|e]] eqn:E.
    + pose proof (handle_not_config _ _ _ _ _ _ _ _ Hs Hl E) as Hs1.
      pose proof (handle_loads _ _ _ _ _ _ _ _ E) as L.
      destruct (IH s1 Hall Hs1) as (-> & ? & ->).
      repeat split; [assumption|]. rewrite L. unfold leaves_config.
      destruct (state s); try contradiction; lia.
    + cbn [fst]. repeat split.
      * exact (handle_not_config _ _ _ _ _ _ _ _ Hs Hl E).
      * rewrite (handle_loads _ _ _ _ _ _ _ _ E). unfold leaves_config.
        destruct (state s); try contradiction; lia.
Qed.

Lemma forallb_app_l {A} (p : A -> bool) (l1 l2 : list A) :
  forallb p (l1 ++ l2) = true -> forallb p l1 = true.
Proof. rewrite forallb_app. intros H. apply andb_true_iff in H. tauto. Qed.

(** C10.  When no line of the stream is a CONFIG or CONFIG_SERVER
    directive, the machine is never in [state_config], the override file is
    never handed to [Config._load], and what [parse] yields is the same
    whatever the override file holds and whether or not it exists. *)
Theorem no_config_no_override w co lines :
  forallb (fun x => negb (config_line x)) lines = true ->
  (forall present apply,
     parse_lines (with_override w present apply) co lines FSM_init =
     parse_lines w co lines FSM_init) /\
  override_loads (trace (parse_lines w co lines FSM_init).1) = 0%nat /\
  (forall pre post, lines = pre ++ post ->
     state (parse_loop w co pre FSM_init).1 <> StConfig).
Proof.
  intros Hall.
  assert (state FSM_init <> StConfig) as H0 by discriminate.
  split; [|split].
  - intros present apply.
    destruct (parse_loop_no_config w present apply co lines _ Hall H0) as (E & Hs & _).
    unfold parse_lines. unfold mbind at 1 2 5 6. unfold M_bind at 1 2 5 6. rewrite E.
    destruct (parse_loop w co lines FSM_init) as [s1 [[]|e]]; [|reflexivity].
    cbn [fst] in Hs.
    destruct (last lines) as [[[f n] l]|]; [|reflexivity].
    rewrite (handle_with_override w present apply "done" None f (S n) s1 Hs eq_refl).
    reflexivity.
  - destruct (parse_loop_no_config w false Ok co lines _ Hall H0) as (_ & Hs & L).
    change (override_loads (trace FSM_init)) with 0%nat in L.
    unfold parse_lines. unfold mbind at 1 2. unfold M_bind at 1 2.
    destruct (parse_loop w co lines FSM_init) as [s1 [[]|e]]; [|exact L].
    cbn [fst] in Hs, L.
    destruct (last lines) as [[[f n] l]|]; [|exact L].
    destruct (handle w "done" None f (S n) s1) as [s2 [[]|e]] eqn:E.
    + pose proof (handle_loads _ _ _ _ _ _ _ _ E) as L2.
      unfold leaves_config in L2. destruct (state s1); try contradiction;
        unfold mbind, M_bind, get, lift, mret, M_ret;
        repeat case_match; simplify_eq/=; lia.
    + pose proof (handle_loads _ _ _ _ _ _ _ _ E) as L2.
      unfold leaves_config in L2. destruct (state s1); try contradiction;
        cbn [fst]; lia.
  - intros pre post ->.
    exact (proj1 (proj2 (parse_loop_no_config w false Ok co pre _
                           (forallb_app_l _ _ _ Hall) H0))).
Qed.

(** The example of the docstring, with an override file that cannot be
    loaded: it is never asked for. *)
Lemma no_config_example :
  (forall present apply,
     parse_lines (with_override broken_override_world present apply) false ping_lines
       FSM_init =
     parse_lines broken_override_world false ping_lines FSM_init) /\
  override_loads (trace (parse_lines broken_override_world false ping_lines FSM_init).1)
    = 0%nat /\
  (forall pre post, ping_lines = pre ++ post ->
     state (parse_loop broken_override_world false pre FSM_init).1 <> StConfig).
Proof.
  apply (no_config_no_override broken_override_world false ping_lines).
  reflexivity.
Defined.

(** What the example of the docstring compiles to. *)
Example ping_parses :
  (parse_lines broken_override_world false ping_lines FSM_init).2 =
    Ok (Control (VInt 100) (VInt 100) NoTeardown) /\
  registry (parse_lines broken_override_world false ping_lines FSM_init).1 =
    [{| listen_port := 12345; listen_handler := MicroRESTHandler;
        listen_mapper :=
          {| mapper_context :=
               {| http_max_content_length := VNone;
                  http_max_line_length := VInt 10000;
                  http_max_header_count := VInt 100;
                  hide_stack_trace := VBool true |};
             mapper_routes := [(Some "/ping?", {[ "get" := Fn "handle" "ping" ]})] |};
        listen_ssl := None |}].
Proof. split; vm_compute; reflexivity. Qed.

Lemma parse_loop_dispatched w co lines evs :
  dispatched co lines = Ok evs -> forall s, parse_loop w co lines s = run_events w evs s.
Proof.
  revert evs. induction lines as [|[[f n] l] lines IH]; intros evs H s.
  - injection H as <-. reflexivity.
  - cbn [dispatched parse_loop] in *. destruct (lex l) as [|ev v|e];
      [exact (IH _ H s)| |discriminate].
    destruct (dispatched co lines) as [evs'|e]; [|discriminate].
    cbn [mbind result_bind] in H.
    destruct (co && negb (is_config_event ev)); injection H as <-.
    + exact (IH _ eq_refl s).
    + cbn [run_events]. unfold mbind, M_bind.
      destruct (handle w ev (Some v) f n s) as [s1 [[]|e]]; [|reflexivity].
      exact (IH _ eq_refl s1).
Qed.

Lemma run_events_app w evs1 evs2 s :
  run_events w (evs1 ++ evs2) s =
  match run_events w evs1 s with
  | (s', Ok tt) => run_events w evs2 s'
  | (s', Raise e) => (s', Raise e)
  end.
Proof.
  revert s. induction evs1 as [|[[[ev d] f] n] evs1 IH]; intros s; [reflexivity|].
  cbn [run_events app]. unfold mbind, M_bind.
  destruct (handle w ev d f n s) as [s1 [[]|e]]; [apply IH | reflexivity].
Qed.

(** Inside the block of config directives nothing is loaded, and the
    machine is in [state_config] once the first of them is handled. *)
Lemma run_events_config_block w evs : forall s s',
  forallb config_ev evs = true ->
  state s = StInit \/ state s = StConfig ->
  run_events w evs s = (s', Ok tt) ->
  override_loads (trace s') = override_loads (trace s) /\
  (state s' = StInit \/ state s' = StConfig) /\
  (evs <> [] -> state s' = StConfig).
Proof.
  induction evs as [|[[[ev d] f] n] evs IH]; intros s s' Hall Hs H.
  - injection H as <-. repeat split; [exact Hs | congruence].
  - cbn [forallb] in Hall. apply andb_true_iff in Hall as [Hev Hall].
    unfold config_ev, event_name in Hev. cbn [fst] in Hev.
    cbn [run_events] in H. unfold mbind, M_bind in H.
    destruct (handle w ev d f n s) as [s1 [[]|e]] eqn:E; [|discriminate].
    pose proof (handle_state _ _ _ _ _ _ _ E) as T.
    pose proof (handle_loads _ _ _ _ _ _ _ _ E) as L.
    assert (state s1 = StConfig) as Hs1.
    { unfold next_state in T. destruct Hs as [Hs|Hs]; rewrite Hs, Hev in T; congruence. }
    assert (leaves_config w (state s) ev = false) as Hl.
    { unfold leaves_config. destruct Hs as [-> | ->]; [reflexivity|].
      rewrite Hev. reflexivity. }
    rewrite Hl in L.
    destruct (IH s1 s' Hall (or_intror Hs1) H) as (L' & Hs' & Hne).
    split; [lia|]. split; [exact Hs'|]. intros _.
    destruct evs as [|e' evs']; [|apply Hne; discriminate].
    injection H as <-. exact Hs1.
Qed.

(** After the block, nothing is loaded any more. *)
Lemma run_events_after_config w evs : forall s s',
  forallb (fun e => negb (config_ev e)) evs = true ->
  state s <> StConfig ->
  run_events w evs s = (s', Ok tt) ->
  override_loads (trace s') = override_loads (trace s) /\ state s' <> StConfig.
Proof.
  induction evs as [|[[[ev d] f] n] evs IH]; intros s s' Hall Hs H.
  - injection H as <-. auto.
  - cbn [forallb] in Hall. apply andb_true_iff in Hall as [Hev Hall].
    unfold config_ev, event_name in Hev. cbn [fst] in Hev. apply negb_true_iff in Hev.
    cbn [run_events] in H. unfold mbind, M_bind in H.
    destruct (handle w ev d f n s) as [s1 [[]|e]] eqn:E; [|discriminate].
    pose proof (handle_not_config _ _ _ _ _ _ _ _ Hs Hev E) as Hs1.
    pose proof (handle_loads _ _ _ _ _ _ _ _ E) as L.
    destruct (IH s1 s' Hall Hs1 H) as (L' & Hs').
    split; [|exact Hs']. rewrite L', L. unfold leaves_config.
    destruct (state s); try contradiction; lia.
Qed.

(** What a parse that returns went through. *)
Lemma parse_lines_returns w co lines s r :
  parse_lines w co lines FSM_init = (s, Ok r) ->
  exists s1 f n l,
    parse_loop w co lines FSM_init = (s1, Ok tt) /\
    last lines = Some (f, n, l) /\
    handle w "done" None f (S n) s1 = (s, Ok tt).
Proof.
  unfold parse_lines. unfold mbind at 1 2. unfold M_bind at 1 2.
  destruct (parse_loop w co lines FSM_init) as [s1 [[]|e]]; [|discriminate].
  destruct (last lines) as [[[f n] l]|]; [|discriminate].
  destruct (handle w "done" None f (S n) s1) as [s2 [[]|e]] eqn:E; [|discriminate].
  intros H. exists s1, f, n, l. repeat split.
  unfold mbind, M_bind, get, lift, mret, M_ret in H.
  repeat case_match; simplify_eq/=; assumption.
Qed.

(** C4, as the code has it.  When the directives sent to the machine begin
    with a block of config directives and none follows the block, the
    override file exists and the parse returns, the file is handed to
    [Config._load] exactly once: not during the block, and at the first
    event after it, which is the next directive or the closing [done]. *)
Theorem override_applied_once w co lines cfgs rest s r :
  dispatched co lines = Ok (cfgs ++ rest) ->
  cfgs <> [] ->
  forallb config_ev cfgs = true ->
  forallb (fun e => negb (config_ev e)) rest = true ->
  exists_config w = true ->
  parse_lines w co lines FSM_init = (s, Ok r) ->
  override_loads (trace s) = 1%nat /\
  exists s1 s2 fl nl l ev d f n tail,
    run_events w cfgs FSM_init = (s1, Ok tt) /\
    override_loads (trace s1) = 0%nat /\
    last lines = Some (fl, nl, l) /\
    rest ++ [("done", None, fl, S nl)] = (ev, d, f, n) :: tail /\
    handle w ev d f n s1 = (s2, Ok tt) /\
    override_loads (trace s2) = 1%nat.
Proof.
  intros Hd Hne Hcfg Hrest Hex Hp.
  destruct (parse_lines_returns _ _ _ _ _ Hp) as (sA & fl & nl & l & Hloop & Hlast & Hdone).
  rewrite (parse_loop_dispatched w _ _ _ Hd), run_events_app in Hloop.
  destruct (run_events w cfgs FSM_init) as [s1 [[]|e]] eqn:E1; [|discriminate].
  destruct (run_events_config_block w cfgs FSM_init s1 Hcfg (or_introl eq_refl) E1)
    as (L1 & _ & Hs1).
  specialize (Hs1 Hne). change (override_loads (trace FSM_init)) with 0%nat in L1.
  assert (leaves_config w StConfig "done" = true) as Hleave
    by (unfold leaves_config; rewrite Hex; reflexivity).
  destruct rest as [|[[[ev d] f] n] tail].
  - cbn [run_events] in Hloop. injection Hloop as <-.
    pose proof (handle_loads _ _ _ _ _ _ _ _ Hdone) as L.
    rewrite Hs1, Hleave, L1 in L.
    split; [exact L|].
    exists s1, s, fl, nl, l, "done", None, fl, (S nl), [].
    repeat split; assumption.
  - cbn [forallb] in Hrest. apply andb_true_iff in Hrest as [Hev Hrest].
    unfold config_ev, event_name in Hev. cbn [fst] in Hev. apply negb_true_iff in Hev.
    cbn [run_events] in Hloop. unfold mbind, M_bind in Hloop.
    destruct (handle w ev d f n s1) as [s2 [[]|e]] eqn:E2; [|discriminate].
    pose proof (handle_loads _ _ _ _ _ _ _ _ E2) as L2.
    unfold leaves_config in L2. rewrite Hs1, Hev, Hex, L1 in L2. cbn in L2.
    pose proof (handle_state _ _ _ _ _ _ _ E2) as T2.
    pose proof (next_state_not_config _ _ _ Hev T2) as Hs2.
    destruct (run_events_after_config w tail _ _ Hrest Hs2 Hloop) as (LA & HsA).
    pose proof (handle_loads _ _ _ _ _ _ _ _ Hdone) as L.
    assert (leaves_config w (state sA) "done" = false) as Hl
      by (unfold leaves_config; destruct (state sA); try contradiction; reflexivity).
    rewrite Hl, LA, L2 in L.
    split; [exact L|].
    exists s1, s2, fl, nl, l, ev, d, f, n, (tail ++ [("done", None, fl, S nl)]).
    repeat split; assumption.
Qed.

(** C4, refuted as stated: for a stream without any config directive the
    override file exists, the parse returns, and the file is never loaded. *)
Lemma override_never_applied :
  exists_config (plain_world [] true) = true /\
  match parse (plain_world [("micro", file_lines ["PORT 80"; "ROUTE /a"; "GET app.a"])] true)
          1 "micro" false with
  | Some (s, Ok _) => override_loads (trace s) = 0%nat
  | _ => False
  end.
Proof. split; [reflexivity|]. vm_compute. reflexivity. Qed.

(** Two config directives, then SETUP, SERVER, ROUTE and GET. *)
Lemma override_once_example :
  override_loads
    (trace (parse_lines (plain_world [] true) false config_first_lines FSM_init).1) = 1%nat.
Proof.
  refine (proj1 (override_applied_once (plain_world [] true) false config_first_lines
            [("config_server", Some "api 8080", "micro", 1%nat);
             ("config", Some "debug default=false validate=bool", "micro", 2%nat)]
            [("setup", Some "app.start", "micro", 3%nat);
             ("server", Some "api", "micro", 4%nat);
             ("route", Some "/a", "micro", 5%nat);
             ("get", Some "app.a", "micro", 6%nat)]
            (parse_lines (plain_world [] true) false config_first_lines FSM_init).1
            (Control (VInt 100) (VInt 100) NoTeardown) _ _ _ _ _ _)).
  - vm_compute. reflexivity.
  - discriminate.
  - reflexivity.
  - reflexivity.
  - reflexivity.
  - vm_compute. reflexivity.
Defined.

(** ** CONFIG_SERVER *)

(** C5.  A CONFIG_SERVER directive whose value is a name and a port number
    registers the five keys of [server_keys], in that order and after the
    keys already there: [name.port] (int, the port as default),
    [name.is_active] (bool, True), [name.ssl.is_active] (bool, False),
    [name.ssl.keyfile] and [name.ssl.certfile] (file).  [_config_server]
    returns the five dotted names and [state_config] appends them to
    [config_keys]. *)
Theorem config_server_registers_five (cfg : Config) (name port : string) :
  is_token name -> is_empty port = false -> all_digits port = true ->
  _config_server cfg (name +:+ " " +:+ port) =
    Ok (cfg ++ server_keys name (digits_value 0 port),
        [name +:+ ".port"; name +:+ ".is_active"; name +:+ ".ssl.is_active";
         name +:+ ".ssl.keyfile"; name +:+ ".ssl.certfile"]) /\
  List.length (server_keys name (digits_value 0 port)) = 5%nat /\
  forall w s fname n,
    state s = StInit \/ state s = StConfig ->
    config s = cfg ->
    exists s',
      handle w "config_server" (Some (name +:+ " " +:+ port)) fname n s = (s', Ok tt) /\
      state s' = StConfig /\
      config s' = cfg ++ server_keys name (digits_value 0 port) /\
      config_keys s' =
        config_keys s ++
        [name +:+ ".port"; name +:+ ".is_active"; name +:+ ".ssl.is_active";
         name +:+ ".ssl.keyfile"; name +:+ ".ssl.certfile"].
Proof.
  intros Hname Hne Hd.
  pose proof (config_server_defines cfg name port Hname Hne Hd) as Hdef.
  split; [exact Hdef|]. split; [reflexivity|].
  intros w s fname n Hs Hcfg. munfold.
  destruct s as [st td c keys pts dat srv reg tr]. cbn [state config config_keys] in *.
  subst c.
  destruct Hs as [-> | ->]; cbn; rewrite Hdef; cbn; eexists; repeat split.
Qed.

(** The example of the docstring: [CONFIG_SERVER private 10000]. *)
Lemma config_server_example :
  _config_server [] "private 10000" =
    Ok (server_keys "private" 10000,
        ["private.port"; "private.is_active"; "private.ssl.is_active";
         "private.ssl.keyfile"; "private.ssl.certfile"]).
Proof.
  exact (proj1 (config_server_registers_five [] "private" "10000"
                  (conj eq_refl eq_refl) eq_refl eq_refl)).
Defined.

(** ** SETUP *)

Lemma import_setup_path w d :
  _import_data w (match getenv w "MICRO_SETUP" with
                  | Some v => Some v
                  | None => Some d
                  end) =
  _import w (match getenv w "MICRO_SETUP" with Some v => v | None => d end) false.
Proof. destruct (getenv w "MICRO_SETUP"); reflexivity. Qed.

(** As long as no SERVER, PORT or [done] directive has been handled, the
    machine is in [state_init] or in [state_config]. *)
Lemma parse_loop_before_listener w pre : forall s0 s,
  parse_loop w false pre s0 = (s, Ok tt) ->
  state s0 = StInit \/ state s0 = StConfig ->
  existsb opens_listener pre = false ->
  existsb done_line pre = false ->
  state s = StInit \/ state s = StConfig.
Proof.
  induction pre as [|[[f n] l] pre IH]; intros s0 s H Hs0 Hopen Hdone.
  - cbn in H. injection H as <-. exact Hs0.
  - cbn [existsb] in Hopen, Hdone.
    apply orb_false_iff in Hopen as [Ho Hopen].
    apply orb_false_iff in Hdone as [Hd Hdone].
    unfold opens_listener in Ho. unfold done_line in Hd. cbn [snd] in Ho, Hd.
    cbn [parse_loop] in H. destruct (lex l) as [|ev v|e]; [eauto| |discriminate].
    cbn [andb] in H. unfold mbind, M_bind in H.
    destruct (handle w ev (Some v) f n s0) as [s1 [[]|e]] eqn:E; [|discriminate].
    apply (IH _ _ H); [|exact Hopen|exact Hdone].
    apply handle_state in E. unfold next_state in E.
    apply orb_false_iff in Ho as [Ho1 Ho2].
    destruct Hs0 as [Hs0 | Hs0]; rewrite Hs0 in E;
      rewrite Ho1, Ho2, Hd in E; cbn [orb] in E;
      destruct (is_config_event ev);
      [injection E as <-; right; reflexivity
      |destruct (String.eqb ev "setup" || String.eqb ev "teardown");
       [injection E as <-; left; reflexivity | discriminate]
      |injection E as <-; right; reflexivity
      |destruct (String.eqb ev "setup" || String.eqb ev "teardown");
       [injection E as <-; left; reflexivity | discriminate]].
Qed.

(** The SETUP directive in [state_init] and in [state_config]: the path,
    the namespace the function is called with, and what is left behind. *)
Lemma handle_setup w s d fname n m fn cfg1 :
  state s = StInit \/ state s = StConfig ->
  (if leaves_config w (state s) "setup" then load_override w (config s)
   else Ok (config s)) = Ok cfg1 ->
  _import w (match getenv w "MICRO_SETUP" with Some v => v | None => d end) false
    = Ok (Fn m fn) ->
  exists s' res,
    handle w "setup" (Some d) fname n s = (s', res) /\
    trace s' =
      trace s ++
      (if leaves_config w (state s) "setup" then [CallLoadOverride (config s)] else []) ++
      [CallSetup (Fn m fn) cfg1] /\
    match setup_call w m fn cfg1 with
    | Ok cfg' => res = Ok tt /\ state s' = StInit /\ config s' = cfg'
    | Raise e => res = Raise (Located e n fname)
    end.
Proof.
  intros Hs Hload Himp. rewrite <- import_setup_path in Himp.
  munfold. unfold leaves_config in *.
  destruct s as [st td cfg keys pts dat srv reg tr]. cbn [state config trace] in *.
  destruct Hs as [-> | ->]; cbn [is_config_event String.eqb Ascii.eqb Bool.eqb orb negb andb]
    in Hload |- *.
  - injection Hload as <-. cbn. rewrite Himp. cbn.
    destruct (setup_call w m fn cfg); do 2 eexists; repeat split.
  - destruct (exists_config w); cbn in Hload |- *;
      [rewrite Hload | injection Hload as <-]; cbn; rewrite Himp; cbn;
      destruct (setup_call w m fn _); do 2 eexists;
      (split; [reflexivity|]); cbn; rewrite <- ?app_assoc; repeat split.
Qed.

(** C9, as the code has it.  In a full parse, a SETUP directive that is
    reached before any SERVER, PORT or [done] directive resolves the path
    given by MICRO_SETUP when that variable is set, and its own value
    otherwise.  When the path imports, the function is called once, during
    the handling of that line, with the namespace the machine holds at that
    moment (the one the override file left, when the directive ends a block
    of config directives).  When the call returns, the machine goes on
    in [state_init] with the namespace the call left, and only then does
    the loop turn to the lines that follow; when the call raises, the parse
    ends with that error at that line. *)
Theorem setup_called_at_once w pre s fname n l d m fn cfg1 :
  parse_loop w false pre FSM_init = (s, Ok tt) ->
  existsb opens_listener pre = false ->
  existsb done_line pre = false ->
  lex l = Directive "setup" d ->
  (if leaves_config w (state s) "setup" then load_override w (config s)
   else Ok (config s)) = Ok cfg1 ->
  _import w (match getenv w "MICRO_SETUP" with Some v => v | None => d end) false
    = Ok (Fn m fn) ->
  exists s' res,
    handle w "setup" (Some d) fname n s = (s', res) /\
    trace s' =
      trace s ++
      (if leaves_config w (state s) "setup" then [CallLoadOverride (config s)] else []) ++
      [CallSetup (Fn m fn) cfg1] /\
    match setup_call w m fn cfg1 with
    | Ok cfg' =>
        res = Ok tt /\ state s' = StInit /\ config s' = cfg' /\
        forall post,
          parse_loop w false (pre ++ (fname, n, l) :: post) FSM_init =
          parse_loop w false post s'
    | Raise e =>
        res = Raise (Located e n fname) /\
        forall post,
          parse_loop w false (pre ++ (fname, n, l) :: post) FSM_init =
          (s', Raise (Located e n fname))
    end.
Proof.
  intros Hpre Hopen Hdone Hlex Hload Himp.
  assert (state s = StInit \/ state s = StConfig) as Hs
    by exact (parse_loop_before_listener w pre _ _ Hpre (or_introl eq_refl) Hopen Hdone).
  destruct (handle_setup w s d fname n m fn cfg1 Hs Hload Himp)
    as (s' & res & Hh & Ht & Hres).
  exists s', res. split; [exact Hh|]. split; [exact Ht|].
  assert (forall post,
            parse_loop w false (pre ++ (fname, n, l) :: post) FSM_init =
            match res with
            | Ok _ => parse_loop w false post s'
            | Raise e => (s', Raise e)
            end) as Hloop.
  { intros post. rewrite parse_loop_app, Hpre. cbn [parse_loop]. rewrite Hlex.
    cbn [andb]. unfold mbind, M_bind. rewrite Hh. destruct res as [[]|e]; reflexivity. }
  destruct (setup_call w m fn cfg1) as [cfg'|e].
  - destruct Hres as (-> & Hs' & Hc).
    split; [reflexivity|]. split; [exact Hs'|]. split; [exact Hc | exact Hloop].
  - subst res. split; [reflexivity | exact Hloop].
Qed.

(** With [config_only] the loop passes over a SETUP directive. *)
Lemma setup_skipped_config_only w fname n l d rest s :
  lex l = Directive "setup" d ->
  parse_loop w true ((fname, n, l) :: rest) s = parse_loop w true rest s.
Proof. intros Hlex. cbn [parse_loop]. rewrite Hlex. reflexivity. Qed.

(** Once a listener is open, or the machine is done, a SETUP directive is
    refused; nothing is imported and nothing is called. *)
Lemma setup_refused_past_init w d fname n s :
  listener_open s ->
  exists e, invalid_event_for_state e "setup" /\
    handle w "setup" d fname n s = (set_data d s, Raise (Located e n fname)).
Proof.
  intros Hs. munfold. unfold invalid_event_for_state.
  destruct s as [st td cfg keys pts dat srv reg tr]. cbn [state] in Hs.
  destruct Hs as [Hs | [Hs | Hs]]; cbn [state] in Hs; subst st; cbn;
    eexists; (split; [|reflexivity]); auto.
Qed.

(** MICRO_SETUP names [ops.boot]; the directive, at the end of a block of
    config directives, names [app.start]. *)
Lemma setup_example :
  exists s',
    handle setup_world "setup" (Some "app.start") "micro" 3
      (parse_loop setup_world false (take 2 config_first_lines) FSM_init).1 = (s', Ok tt) /\
    state s' = StInit /\
    config s' =
      config (parse_loop setup_world false (take 2 config_first_lines) FSM_init).1 ++
      [{| key_name := "ops.boot"; key_value := VBool true;
          key_validator := None; key_env := None |}] /\
    trace s' =
      [CallSetup (Fn "ops" "boot")
         (config (parse_loop setup_world false (take 2 config_first_lines) FSM_init).1)].
Proof.
  destruct (setup_called_at_once setup_world (take 2 config_first_lines)
              (parse_loop setup_world false (take 2 config_first_lines) FSM_init).1
              "micro" 3%nat "SETUP app.start" "app.start" "ops" "boot"
              (config (parse_loop setup_world false (take 2 config_first_lines) FSM_init).1))
    as (s' & res & Hh & Ht & Hres).
  - vm_compute. reflexivity.
  - reflexivity.
  - reflexivity.
  - reflexivity.
  - reflexivity.
  - reflexivity.
  - cbn [setup_call setup_world] in Hres. destruct Hres as (-> & Hs & Hc & _).
    exists s'. split; [exact Hh|]. split; [exact Hs|]. split; [exact Hc|exact Ht].
Defined.

(** C9, refuted as stated: not every SETUP directive has its function
    called.  In a config-only parse the directive is passed over, and after
    a PORT directive it is refused; in both cases no call is made. *)
Lemma setup_directive_not_called :
  match parse_lines setup_world true config_first_lines FSM_init with
  | (s, Ok _) => trace s = []
  | _ => False
  end /\
  match parse_lines setup_world false
          (numbered "micro" (file_lines ["PORT 80"; "SETUP app.start"])) FSM_init with
  | (s, Raise e) => e = Located (InvalidRecord "setup") 2 "micro" /\ trace s = []
  | _ => False
  end.
Proof. vm_compute. repeat split. Qed.

(** ** Ports *)

Local Transparent Server_init.

Lemma Server_init_fresh w cfg nm sec srv :
  Server_init w cfg nm sec = Ok srv ->
  name srv = nm /\ route srv = None /\ mapper_routes (mapper srv) = [].
Proof.
  unfold Server_init, mbind, result_bind. intros H.
  repeat (match type of H with
          | context [match ?x with _ => _ end] => destruct x; try discriminate H
          end);
    injection H as <-; repeat split.
Qed.

Local Opaque Server_init.

(** An entry of [self.ports] is never removed nor replaced. *)
Lemma handle_ports w ev d fname n s s' r p owner :
  handle w ev d fname n s = (s', r) ->
  ports s !! p = Some owner -> ports s' !! p = Some owner.
Proof.
  intros H Hp. munfold. unfold is_config_event, is_method_event in *.
  destruct s as [st td cfg keys pts dat srv reg tr]. cbn [ports] in *.
  event_cases ev; destruct st; run_in H; injection H as <- <-; cbn;
    try assumption;
    (rewrite lookup_insert_ne; [assumption | congruence]).
Qed.

Lemma parse_loop_ports w lines p owner : forall s s' r,
  parse_loop w false lines s = (s', r) ->
  ports s !! p = Some owner -> ports s' !! p = Some owner.
Proof.
  induction lines as [|[[f n] l] lines IH]; intros s s' r H Hp.
  - injection H as <- <-. exact Hp.
  - cbn [parse_loop] in H. destruct (lex l) as [|ev v|e].
    + exact (IH _ _ _ H Hp).
    + cbn [andb] in H. unfold mbind, M_bind in H.
      destruct (handle w ev (Some v) f n s) as [s1 [[]|e]] eqn:E.
      * exact (IH _ _ _ H (handle_ports _ _ _ _ _ _ _ _ _ _ E Hp)).
      * injection H as <- <-. exact (handle_ports _ _ _ _ _ _ _ _ _ _ E Hp).
    + injection H as <- <-. exact Hp.
Qed.

(** A SERVER directive that is accepted enters its port in [self.ports]
    under its own name. *)
Lemma handle_server_claims w a fname n s s' :
  handle w "server" (Some a) fname n s = (s', Ok tt) ->
  exists srv, server s' = Some srv /\ ports s' !! port srv = Some a.
Proof.
  intros H. munfold.
  destruct s as [st td cfg keys pts dat srv reg tr].
  destruct st; run_in H; injection H as <-; cbn;
    match goal with
    | E : Server_init _ _ _ _ = Ok ?x |- _ =>
        exists x; split; [reflexivity|];
        rewrite (proj1 (Server_init_fresh _ _ _ _ _ E)); apply lookup_insert_eq
    end.
Qed.

Lemma Server_done_frame w s s' r :
  Server_done w s = (s', r) ->
  state s' = state s /\ config s' = config s /\ ports s' = ports s /\
  data s' = data s /\ config_keys s' = config_keys s.
Proof.
  intros H. unfold Server_done, self_server, modify, get, lift, raise, mbind, mret,
    M_bind, M_ret in H.
  destruct s as [st td cfg keys pts dat srv reg tr].
  run_in H; injection H as <- <-; repeat split.
Qed.

(** In [state_route] a SERVER directive first finalises the server that is
    open, then builds the new one, and raises when the port of the new one
    is a key of [self.ports]. *)
Lemma handle_server_duplicate w b fname n s s3 sec srv2 owner :
  state s = StRoute ->
  Server_done w (set_data (Some b) s) = (s3, Ok tt) ->
  config_section (config s) b = Ok sec ->
  Server_init w (config s) b sec = Ok srv2 ->
  ports s !! port srv2 = Some owner ->
  handle w "server" (Some b) fname n s =
    (set_server (Some srv2) s3,
     Raise (Located (PortAlreadyDefined (port srv2) owner) n fname)).
Proof.
  intros Hs Hdone Hsec Hinit Hp.
  destruct (Server_done_frame _ _ _ _ Hdone) as (_ & Hc & Hpt & Hd & _).
  unfold handle, self_state. unfold mbind at 1 2. unfold M_bind at 1 2.
  unfold modify at 1, get at 1.
  change (state (set_data (Some b) s)) with (state s). rewrite Hs.
  unfold state_route. cbn [is_method_event String.eqb Ascii.eqb Bool.eqb orb].
  unfold mbind at 1. unfold M_bind at 1. rewrite Hdone.
  unfold open_server, self_data, mbind, M_bind, get, lift, modify, raise, mret, M_ret.
  rewrite Hd. cbn [data set_data]. rewrite Hc. cbn [config set_data].
  rewrite Hsec, Hinit. cbn [ports set_server]. rewrite Hpt. cbn [ports set_data].
  rewrite Hp. reflexivity.
Qed.

(** C3, as the code has it.  When a SERVER directive was accepted and a
    later SERVER directive, reached with a route open, resolves to the same
    port, the parse raises 'port ... already defined' naming the first
    server, at the line of the second directive: the server that was open
    has just been finalised, the new one never is. *)
Theorem duplicate_server_port w pre mid post f1 n1 l1 a f2 n2 l2 b
    s1 s2 s3 srv1 sec srv2 :
  lex l1 = Directive "server" a ->
  lex l2 = Directive "server" b ->
  parse_loop w false (pre ++ [(f1, n1, l1)]) FSM_init = (s1, Ok tt) ->
  server s1 = Some srv1 ->
  parse_loop w false mid s1 = (s2, Ok tt) ->
  state s2 = StRoute ->
  Server_done w (set_data (Some b) s2) = (s3, Ok tt) ->
  config_section (config s2) b = Ok sec ->
  Server_init w (config s2) b sec = Ok srv2 ->
  port srv2 = port srv1 ->
  parse_lines w false (pre ++ (f1, n1, l1) :: mid ++ (f2, n2, l2) :: post) FSM_init =
    (set_server (Some srv2) s3,
     Raise (Located (PortAlreadyDefined (port srv1) a) n2 f2)).
Proof.
  intros Hl1 Hl2 H1 Hsrv Hmid Hs2 Hdone Hsec Hinit Hport.
  assert (ports s1 !! port srv1 = Some a) as Hp1.
  { rewrite parse_loop_app in H1.
    destruct (parse_loop w false pre FSM_init) as [s0 [[]|e]]; [|discriminate].
    cbn [parse_loop] in H1. rewrite Hl1 in H1. cbn [andb] in H1.
    unfold mbind, M_bind in H1.
    destruct (handle w "server" (Some a) f1 n1 s0) as [s1' [[]|e]] eqn:E; [|discriminate].
    cbn in H1. injection H1 as ->.
    destruct (handle_server_claims _ _ _ _ _ _ E) as (srv & Hsrv' & Hp).
    congruence. }
  pose proof (parse_loop_ports _ _ _ _ _ _ _ Hmid Hp1) as Hp2.
  rewrite <- Hport in *.
  pose proof (handle_server_duplicate w b f2 n2 s2 s3 sec srv2 a
                Hs2 Hdone Hsec Hinit Hp2) as Hh.
  unfold parse_lines. unfold mbind at 1 2. unfold M_bind at 1 2.
  change (pre ++ (f1, n1, l1) :: mid ++ (f2, n2, l2) :: post)
    with (pre ++ [(f1, n1, l1)] ++ mid ++ (f2, n2, l2) :: post).
  rewrite app_assoc, parse_loop_app, H1, parse_loop_app, Hmid.
  cbn [parse_loop]. rewrite Hl2. cbn [andb].
  unfold mbind at 1. unfold M_bind at 1. rewrite Hh. reflexivity.
Qed.

(** Sections [api] and [admin] both default to port 8080. *)
Lemma duplicate_server_example :
  (parse_lines (plain_world [] false) false
     (numbered "micro" (file_lines ["CONFIG_SERVER api 8080"; "CONFIG_SERVER admin 8080"])
      ++ ("micro", 3%nat, "SERVER api")
      :: [("micro", 4%nat, "ROUTE /a"); ("micro", 5%nat, "GET app.a")]
      ++ ("micro", 6%nat, "SERVER admin") :: [("micro", 7%nat, "ROUTE /b")])
     FSM_init).2 =
  Raise (Located (PortAlreadyDefined 8080 "api") 6 "micro").
Proof.
  pose (w := plain_world [] false).
  pose (pre := numbered "micro"
                 (file_lines ["CONFIG_SERVER api 8080"; "CONFIG_SERVER admin 8080"])).
  pose (mid := [("micro", 4%nat, "ROUTE /a"); ("micro", 5%nat, "GET app.a")] : list rawline).
  let s1 := eval vm_compute in
              (parse_loop w false (pre ++ [("micro", 3%nat, "SERVER api")]) FSM_init).1 in
  let s2 := eval vm_compute in (parse_loop w false mid s1).1 in
  let s3 := eval vm_compute in (Server_done w (set_data (Some "admin") s2)).1 in
  lazymatch eval vm_compute in (server s1) with
  | Some ?srv1 =>
    lazymatch eval vm_compute in
                (Server_init w (config s2) "admin" (NamedSection "admin")) with
    | Ok ?srv2 =>
        exact (f_equal snd
                 (duplicate_server_port w pre mid [("micro", 7%nat, "ROUTE /b")]
                    "micro" 3%nat "SERVER api" "api" "micro" 6%nat "SERVER admin" "admin"
                    s1 s2 s3 srv1 (NamedSection "admin") srv2
                    eq_refl eq_refl
                    ltac:(vm_compute; reflexivity) ltac:(vm_compute; reflexivity)
                    ltac:(vm_compute; reflexivity) eq_refl
                    ltac:(vm_compute; reflexivity) ltac:(vm_compute; reflexivity)
                    ltac:(vm_compute; reflexivity) eq_refl))
    end
  end.
Defined.

(** C3, refuted as stated: two bare PORT directives with one port.  No
    'port already defined' is raised; when the registry takes both, the
    parse returns with two listeners on the port, and when it refuses the
    second, the error is the registry's, raised when that server is
    finalised by the closing [done]. *)
Lemma duplicate_port_undetected :
  match parse (plain_world twice_port_file false) 1 "micro" false with
  | Some (s, Ok _) => map listen_port (registry s) = [8080; 8080]
  | _ => False
  end /\
  match parse (strict_world twice_port_file) 1 "micro" false with
  | Some (_, Raise e) => e = Located (External "address already in use") 7 "micro"
  | _ => False
  end.
Proof. split; vm_compute; reflexivity. Qed.

(** ** Routes *)

Local Transparent Server_add_route Server_add_method mapper_add.











(** ** The depth of [self.state] *)

(** A handler calls [self.state] again at most once: [state_init] for a
    config directive, [state_config] for any other event, and the second
    handler does not call it.  Two levels are therefore all [handle] needs. *)
Lemma self_state_depth w k ev s :
  self_state w (S (S k)) ev s = self_state w 2 ev s.
Proof.
  munfold. unfold is_config_event, is_method_event.
  destruct s as [st td cfg keys pts dat srv reg tr].
  event_cases ev; destruct st; cbn;
    repeat (inner_case_goal; cbn); reflexivity.
Qed.

(** * Further properties *)

(** ** The transition table *)

Lemma table_run_app st evs1 evs2 :
  table_run st (evs1 ++ evs2) =
  match table_run st evs1 with
  | Some st' => table_run st' evs2
  | None => None
  end.
Proof.
  revert st. induction evs1 as [|ev evs1 IH]; intros st; [reflexivity|].
  cbn [table_run app]. destruct (next_state st ev); [apply IH | reflexivity].
Qed.

Lemma run_events_table w evs : forall s s',
  run_events w evs s = (s', Ok tt) ->
  table_run (state s) (map event_name evs) = Some (state s').
Proof.
  induction evs as [|[[[ev d] f] n] evs IH]; intros s s' H.
  - injection H as <-. reflexivity.
  - cbn [run_events] in H. unfold mbind, M_bind in H.
    destruct (handle w ev d f n s) as [s1 [[]|e]] eqn:E; [|discriminate].
    cbn [map table_run]. unfold event_name at 1. cbn [fst].
    rewrite (handle_state _ _ _ _ _ _ _ E). exact (IH _ _ H).
Qed.

Lemma parse_loop_lexes w co lines : forall s s',
  parse_loop w co lines s = (s', Ok tt) -> exists evs, dispatched co lines = Ok evs.
Proof.
  induction lines as [|[[f n] l] lines IH]; intros s s' H.
  - exists []. reflexivity.
  - cbn [parse_loop dispatched] in *. destruct (lex l) as [|ev v|e]; [eauto| |discriminate].
    destruct (co && negb (is_config_event ev)).
    + destruct (IH _ _ H) as [evs ->]. eexists. reflexivity.
    + unfold mbind, M_bind in H.
      destruct (handle w ev (Some v) f n s) as [s1 [[]|e]]; [|discriminate].
      destruct (IH _ _ H) as [evs ->]. eexists. reflexivity.
Qed.

(** What the table says about a parse that returns. *)
Lemma parse_lines_table w co lines s r :
  parse_lines w co lines FSM_init = (s, Ok r) ->
  exists evs,
    dispatched co lines = Ok evs /\
    table_run StInit (map event_name evs ++ ["done"]) = Some StDone /\
    state s = StDone.
Proof.
  intros Hp.
  destruct (parse_lines_returns _ _ _ _ _ Hp) as (s1 & fl & nl & l & Hloop & _ & Hdone).
  destruct (parse_loop_lexes _ _ _ _ _ Hloop) as [evs Hd].
  exists evs. split; [exact Hd|].
  rewrite (parse_loop_dispatched w _ _ _ Hd) in Hloop.
  pose proof (run_events_table _ _ _ _ Hloop) as T1.
  pose proof (handle_state _ _ _ _ _ _ _ Hdone) as T2.
  change (state FSM_init) with StInit in T1.
  assert (state s = StDone) as Hs.
  { destruct (state s1); cbn in T2; congruence. }
  split; [|exact Hs].
  rewrite table_run_app, T1. cbn [table_run]. rewrite T2, Hs. reflexivity.
Qed.

(** X1.  A parse that returns has sent the machine a sequence of events
    that is a path of the transition table from [state_init] to
    [state_done], the closing [done] included. *)
Theorem accepted_stream_follows_table w co lines s r :
  parse_lines w co lines FSM_init = (s, Ok r) ->
  exists evs,
    dispatched co lines = Ok evs /\
    table_run StInit (map event_name evs ++ ["done"]) = Some StDone /\
    state s = StDone.
Proof. exact (parse_lines_table w co lines s r). Qed.

(** The docstring example is such a path. *)
Lemma accepted_stream_example :
  exists evs,
    dispatched false ping_lines = Ok evs /\
    table_run StInit (map event_name evs ++ ["done"]) = Some StDone /\
    state (parse_lines (plain_world [] false) false ping_lines FSM_init).1 = StDone.
Proof.
  exact (accepted_stream_follows_table (plain_world [] false) false ping_lines
           (parse_lines (plain_world [] false) false ping_lines FSM_init).1
           (Control (VInt 100) (VInt 100) NoTeardown)
           ltac:(vm_compute; reflexivity)).
Defined.

(** X2.  Outside [state_config], an event the table has no entry for is
    refused with 'invalid record' or 'unexpected event' carrying the line
    and the file, and nothing of the machine changes but [self.data]. *)
Theorem unmapped_event_refused w ev d fname n s :
  state s <> StConfig ->
  next_state (state s) ev = None ->
  exists e, invalid_event_for_state e ev /\
    handle w ev d fname n s = (set_data d s, Raise (Located e n fname)).
Proof.
  unfold invalid_event_for_state. intros Hs Hn. munfold.
  unfold next_state, is_config_event, is_method_event in *.
  destruct s as [st td cfg keys pts dat srv reg tr]. cbn [state] in *.
  event_cases ev; destruct st; try contradiction; cbn in Hn |- *;
    try discriminate Hn; eauto.
Qed.

(** A GET directly under PORT, with no ROUTE in between. *)
Lemma unmapped_event_example :
  exists e, invalid_event_for_state e "get" /\
    handle (plain_world [] false) "get" (Some "app.a") "micro" 2
      (handle (plain_world [] false) "port" (Some "80") "micro" 1 FSM_init).1 =
    (set_data (Some "app.a")
       (handle (plain_world [] false) "port" (Some "80") "micro" 1 FSM_init).1,
     Raise (Located e 2 "micro")).
Proof.
  apply (unmapped_event_refused (plain_world [] false) "get" (Some "app.a") "micro" 2%nat).
  - vm_compute. discriminate.
  - vm_compute. reflexivity.
Defined.

Lemma next_state_done_absorbs st st' :
  next_state st "done" = Some st' -> st' = StDone.
Proof. destruct st; cbn; congruence. Qed.

Lemma table_run_written_done st evs :
  In "done" evs -> table_run st (evs ++ ["done"]) = None.
Proof.
  revert st. induction evs as [|ev evs IH]; intros st Hin; [destruct Hin|].
  cbn [app table_run]. destruct (next_state st ev) as [st'|] eqn:E; [|reflexivity].
  destruct Hin as [-> | Hin]; [|exact (IH _ Hin)].
  rewrite (next_state_done_absorbs _ _ E).
  destruct evs; reflexivity.
Qed.

Lemma dispatched_done lines : forall evs,
  dispatched false lines = Ok evs ->
  existsb done_line lines = true -> In "done" (map event_name evs).
Proof.
  induction lines as [|[[f n] l] lines IH]; intros evs Hd Hex; [discriminate|].
  cbn [dispatched existsb] in *. unfold done_line in Hex at 1. cbn [snd] in Hex.
  destruct (lex l) as [|ev v|e]; [exact (IH _ Hd Hex)| |discriminate].
  destruct (dispatched false lines) as [evs'|e]; [|discriminate].
  cbn in Hd. injection Hd as <-. cbn [map]. unfold event_name at 1. cbn [fst].
  apply orb_true_iff in Hex as [Hex | Hex].
  - left. apply String.eqb_eq in Hex. congruence.
  - right. exact (IH _ eq_refl Hex).
Qed.

(** X3.  A directive named [done] written in the file makes every full
    parse fail: once it is handled the machine is in [state_done], where the
    next event, at the latest the closing [done] that [parse] sends itself,
    is refused. *)
Theorem written_done_never_parses w lines s r :
  existsb done_line lines = true ->
  parse_lines w false lines FSM_init <> (s, Ok r).
Proof.
  intros Hex Hp.
  destruct (parse_lines_table _ _ _ _ _ Hp) as (evs & Hd & T & _).
  rewrite (table_run_written_done _ _ (dispatched_done _ _ Hd Hex)) in T.
  discriminate.
Qed.

(** PORT, then DONE on line 2: ROUTE on line 3 is the event refused. *)
Lemma written_done_example :
  (forall s r, parse_lines (plain_world [] false) false written_done_lines FSM_init
               <> (s, Ok r)) /\
  (parse_lines (plain_world [] false) false written_done_lines FSM_init).2 =
    Raise (Located (UnexpectedEvent "route") 3 "micro").
Proof.
  split.
  - intros s r.
    apply (written_done_never_parses (plain_world [] false) written_done_lines s r).
    reflexivity.
  - vm_compute. reflexivity.
Defined.

(** ** More on the loader *)

Lemma load_lines_plain fs rec fname dir ls : forall n st,
  forallb (fun l => negb (import_line l)) ls = true ->
  load_lines fs rec fname dir n ls st =
    Some (Ok (st.1, st.2 ++ imap (fun i l => (fname, (n + i)%nat, l)) ls)).
Proof.
  induction ls as [|l ls IH]; intros n st Hall.
  - cbn. rewrite app_nil_r. destruct st; reflexivity.
  - cbn [forallb] in Hall. apply andb_true_iff in Hall as [Hl Hall].
    unfold import_line in Hl. cbn [load_lines].
    destruct (import_fname_of l); [discriminate|].
    rewrite (IH _ _ Hall). cbn [fst snd imap]. rewrite <- app_assoc. cbn [app].
    rewrite Nat.add_0_r. do 5 f_equal.
    apply imap_ext. intros i x _. cbn. f_equal. f_equal. lia.
Qed.

(** X4.  A file without IMPORT lines loads, with a budget of one call, to
    its own lines in order, each tagged with the file name and its number
    counted from 1. *)
Theorem load_without_imports fs fuel fname ls :
  readlines fs fname = Some ls ->
  forallb (fun l => negb (import_line l)) ls = true ->
  load fs (S fuel) fname = Some (Ok (numbered fname ls)).
Proof.
  intros Hread Hall. unfold load. cbn [_load].
  rewrite bool_decide_eq_false_2 by apply not_elem_of_nil.
  rewrite Hread, (load_lines_plain _ _ _ _ _ _ _ Hall). reflexivity.
Qed.

Lemma load_without_imports_example :
  load fs_tree 1 "lib/c" = Some (Ok [("lib/c", 1%nat, hd "" (file_lines ["CONFIG c"]))]).
Proof.
  exact (load_without_imports fs_tree 0 "lib/c" (file_lines ["CONFIG c"])
           eq_refl eq_refl).
Defined.

Lemma load_lines_in_place fs rec fname dir :
  (forall f st st', rec f st = Some (Ok st') ->
     Forall (in_place fs) st.2 -> Forall (in_place fs) st'.2) ->
  forall ls pre n st st',
    readlines fs fname = Some (pre ++ ls) ->
    n = S (List.length pre) ->
    Forall (in_place fs) st.2 ->
    load_lines fs rec fname dir n ls st = Some (Ok st') ->
    Forall (in_place fs) st'.2.
Proof.
  intros Hrec. induction ls as [|l ls IH]; intros pre n st st' Hread Hn Hst H.
  - injection H as <-. exact Hst.
  - cbn [load_lines] in H.
    assert (readlines fs fname = Some ((pre ++ [l]) ++ ls)) as Hread'
      by (rewrite <- app_assoc; exact Hread).
    assert (S n = S (List.length (pre ++ [l]))) as Hn'
      by (rewrite length_app; cbn; lia).
    destruct (import_fname_of l) as [i|] eqn:Hi.
    + destruct (resolve_import fs dir i) as [t|e]; [|discriminate].
      destruct (rec t st) as [[st1|e]|] eqn:E; [|discriminate..].
      exact (IH _ _ _ _ Hread' Hn' (Hrec _ _ _ E Hst) H).
    + refine (IH _ _ _ _ Hread' Hn' _ H).
      cbn [snd]. apply Forall_app. split; [exact Hst|].
      apply Forall_cons. split; [|apply Forall_nil; exact I].
      exists (pre ++ l :: ls). cbn [fst snd]. repeat split.
      * exact Hread.
      * lia.
      * subst n. replace (S (List.length pre) - 1)%nat with (List.length pre) by lia.
        rewrite lookup_app_r by reflexivity. rewrite Nat.sub_diag. reflexivity.
      * unfold import_line. rewrite Hi. reflexivity.
Qed.

Lemma load_in_place fs fuel : forall f st st',
  _load fs fuel f st = Some (Ok st') ->
  Forall (in_place fs) st.2 -> Forall (in_place fs) st'.2.
Proof.
  induction fuel as [|k IH]; intros f st st' H Hst; [discriminate|].
  cbn [_load] in H. destruct (bool_decide (f ∈ st.1)); [discriminate|].
  destruct (readlines fs f) as [ls|] eqn:Hread; [|discriminate].
  exact (load_lines_in_place fs _ f _ IH ls [] 1%nat (st.1 ++ [f], st.2) _
           Hread eq_refl Hst H).
Qed.

(** X5.  Every line a load returns is tagged truthfully: it is the line at
    that number (counted from 1, IMPORT lines included in the count) of the
    file it names, and it is not an IMPORT line itself. *)
Theorem loaded_lines_in_place fs fuel root lines :
  load fs fuel root = Some (Ok lines) -> Forall (in_place fs) lines.
Proof.
  unfold load. intros H.
  destruct (_load fs fuel root ([], [])) as [[st|e]|] eqn:E; [|discriminate..].
  injection H as <-.
  exact (load_in_place fs fuel _ _ _ E (Forall_nil_2 _)).
Qed.

(** The lines of [lib/b] and [lib/c] keep their own numbers inside the
    stream of [micro], and PORT is still line 3. *)
Lemma loaded_lines_example :
  Forall (in_place fs_tree)
    [("micro", 1%nat, hd "" (file_lines ["CONFIG a"]));
     ("lib/b", 1%nat, hd "" (file_lines ["# shared"]));
     ("lib/c", 1%nat, hd "" (file_lines ["CONFIG c"]));
     ("lib/b", 3%nat, hd "" (file_lines ["CONFIG b"]));
     ("micro", 3%nat, hd "" (file_lines ["PORT 80"]))].
Proof.
  exact (loaded_lines_in_place fs_tree 3 "micro" _ eq_refl).
Defined.





(** [b] and [./b] are two paths to [_load]: the line is delivered twice. *)
Example two_spellings_loaded :
  load fs_spellings 2 "micro" =
    Some (Ok [("b", 1%nat, hd "" (file_lines ["CONFIG x"]));
              ("./b", 1%nat, hd "" (file_lines ["CONFIG x"]))]).
Proof. vm_compute. reflexivity. Qed.

Lemma remaining_mono universe files files' :
  (forall f, f ∈ files -> f ∈ files') ->
  (remaining universe files' <= remaining universe files)%nat.
Proof.
  intros Hsub. unfold remaining. induction universe as [|u universe IH]; [reflexivity|].
  rewrite !filter_cons.
  destruct (decide (u ∉ files')) as [H'|H']; destruct (decide (u ∉ files)) as [H|H];
    cbn [List.length]; try lia.
  exfalso. apply H. intros Hu. apply H'. exact (Hsub _ Hu).
Qed.

Lemma remaining_add universe files f :
  f ∈ universe -> f ∉ files ->
  (remaining universe (files ++ [f]) < remaining universe files)%nat.
Proof.
  intros Hu Hf. unfold remaining. induction universe as [|u universe IH]; [inversion Hu|].
  assert (List.length (filter (fun g => g ∉ files ++ [f]) universe) <=
          List.length (filter (fun g => g ∉ files) universe))%nat as Hle.
  { apply (remaining_mono universe files (files ++ [f])).
    intros g Hg. apply elem_of_app. left. exact Hg. }
  rewrite !filter_cons.
  destruct (decide (u = f)) as [->|Hne].
  - destruct (decide (f ∉ files ++ [f])) as [H'|_].
    + exfalso. apply H'. apply elem_of_app. right. apply list_elem_of_singleton. reflexivity.
    + destruct (decide (f ∉ files)); [|contradiction]. cbn [List.length]. lia.
  - apply elem_of_cons in Hu as [Hu | Hu]; [congruence|]. specialize (IH Hu).
    destruct (decide (u ∉ files ++ [f])) as [H'|H']; destruct (decide (u ∉ files)) as [H|H];
      cbn [List.length]; try lia.
    exfalso. apply H. intros Hc. apply H'. apply elem_of_app. left. exact Hc.
Qed.

Lemma load_lines_returns fs rec fname dir universe k :
  (forall f st, (remaining universe st.1 < k)%nat -> exists r, rec f st = Some r) ->
  records rec ->
  forall ls n st,
    (remaining universe st.1 < k)%nat ->
    exists r, load_lines fs rec fname dir n ls st = Some r.
Proof.
  intros Hrec Hgrow. induction ls as [|l ls IH]; intros n st Hm; [eexists; reflexivity|].
  cbn [load_lines]. destruct (import_fname_of l) as [i|]; [|exact (IH _ (st.1, _) Hm)].
  destruct (resolve_import fs dir i) as [t|e]; [|eexists; reflexivity].
  destruct (Hrec t st Hm) as [[st1|e] E]; rewrite E; [|eexists; reflexivity].
  apply IH. pose proof (remaining_mono universe _ _ (proj2 (Hgrow _ _ _ E))). lia.
Qed.

Lemma load_returns fs universe :
  (forall f ls, readlines fs f = Some ls -> f ∈ universe) ->
  forall k f st, (remaining universe st.1 < k)%nat -> exists r, _load fs k f st = Some r.
Proof.
  intros Hu. induction k as [|k IH]; intros f st Hm; [lia|].
  cbn [_load]. destruct (bool_decide (f ∈ st.1)) eqn:Hin; [eexists; reflexivity|].
  apply bool_decide_eq_false in Hin.
  destruct (readlines fs f) as [ls|] eqn:Hread; [|eexists; reflexivity].
  apply (load_lines_returns fs _ f _ universe k IH (load_records fs k)).
  pose proof (remaining_add universe st.1 f (Hu _ _ Hread) Hin). cbn [fst]. lia.
Qed.

(** X7.  Loading ends.  When the files that can be opened are among
    finitely many paths, a budget of one call more than their number is
    enough for [_load] to return or raise, whatever imports what. *)
Theorem load_terminates fs universe root :
  (forall f ls, readlines fs f = Some ls -> f ∈ universe) ->
  exists r, load fs (S (List.length universe)) root = Some r.
Proof.
  intros Hu. unfold load.
  destruct (load_returns fs universe Hu (S (List.length universe)) root ([], []))
    as [[st|e] ->]; [|eexists; reflexivity..].
  unfold remaining. cbn [fst].
  pose proof (length_filter (fun f => f ∉ ([] : list string)) universe). lia.
Qed.

Lemma files_of_universe fsys f ls :
  readlines (files_of fsys) f = Some ls -> f ∈ (fst <$> fsys).
Proof.
  cbn. induction fsys as [|[g gl] fsys IH]; [discriminate|].
  cbn. destruct (String.eqb_spec g f) as [->|Hne].
  - intros _. apply elem_of_cons. left. reflexivity.
  - intros H. apply elem_of_cons. right. exact (IH H).
Qed.

(** The two files that import each other: three calls are enough. *)
Lemma load_terminates_example :
  exists r, load fs_cycle 3 "micro" = Some r.
Proof.
  exact (load_terminates fs_cycle ["micro"; "b"] "micro"
           (files_of_universe _)).
Defined.

(** ** More on the lexer *)

Lemma lower_char_idem (c : ascii) : lower_char (lower_char c) = lower_char c.
Proof. destruct c as [[] [] [] [] [] [] [] []]; vm_compute; reflexivity. Qed.

Lemma lower_idem (s : string) : lower (lower s) = lower s.
Proof.
  induction s as [|c s IH]; [reflexivity|].
  cbn [lower]. rewrite lower_char_idem, IH. reflexivity.
Qed.

Lemma lower_empty (s : string) : lower s = EmptyString -> s = EmptyString.
Proof. destruct s; [reflexivity | discriminate]. Qed.

Lemma lstrip_head (s : string) (c : ascii) (r : string) :
  lstrip s = String c r -> is_space c = false.
Proof.
  induction s as [|d s IH]; [discriminate|].
  cbn [lstrip]. destruct (is_space d) eqn:E; [exact IH|].
  intros [= <- _]. exact E.
Qed.

Lemma strip_head (s : string) (c : ascii) (r : string) :
  strip s = String c r -> is_space c = false.
Proof.
  unfold strip. destruct (lstrip s) as [|d t] eqn:E; [discriminate|].
  cbn [rstrip]. pose proof (lstrip_head _ _ _ E) as Hd. rewrite Hd. cbn [andb].
  intros [= <- _]. exact Hd.
Qed.

(** X8.  The name of every directive the lexer yields is not empty, holds
    no space and no upper-case letter: directives are matched whatever case
    they are written in. *)
Theorem directive_name_normal (l n v : string) :
  lex l = Directive n v ->
  n <> EmptyString /\ contains " " n = false /\ lower n = n.
Proof.
  unfold lex. set (t := strip (hd EmptyString (split_once "#" l))).
  destruct (is_empty t) eqn:Ht; [discriminate|].
  destruct (split_once_spec " " t) as [[_ ->] | (a & b & Hab & Hc & ->)]; [discriminate|].
  intros [= <- <-]. split; [|split].
  - intros Ha. apply lower_empty in Ha. subst a.
    destruct t as [|c r] eqn:E; [discriminate|].
    injection Hab as -> _.
    pose proof (strip_head _ _ _ E) as Hs. vm_compute in Hs. discriminate.
  - clear -Hc. induction a as [|c a IH]; [reflexivity|].
    cbn [contains lower] in *.
    destruct (Ascii.eqb " " c) eqn:E; [discriminate|].
    rewrite (IH Hc).
    destruct c as [[] [] [] [] [] [] [] []]; vm_compute in E |- *; congruence.
  - apply lower_idem.
Qed.

Lemma directive_name_example :
  "get" <> EmptyString /\ contains " " "get" = false /\ lower "get" = "get".
Proof.
  exact (directive_name_normal "    GeT handle.ping  # liveness" "get" "handle.ping" eq_refl).
Defined.

(** X9.  What follows the first "#" of a line never reaches the machine,
    also when the "#" stands inside the value of a directive. *)
Theorem comment_is_dropped (text comment : string) :
  contains "#" text = false ->
  lex (text +:+ String "#" comment) = lex text.
Proof.
  intros H. unfold lex.
  rewrite (split_once_found _ _ _ H), (split_once_missing _ _ H). reflexivity.
Qed.

(** A pattern with a fragment is cut at the "#". *)
Lemma comment_example :
  lex "ROUTE /docs#intro" = lex "ROUTE /docs".
Proof. exact (comment_is_dropped "ROUTE /docs" "intro" eq_refl). Defined.

(** ** More on parse *)

Lemma parse_loop_blank w co lines s :
  forallb blank_line lines = true -> parse_loop w co lines s = (s, Ok tt).
Proof.
  induction lines as [|[[f n] l] lines IH]; intros Hall; [reflexivity|].
  cbn [forallb] in Hall. apply andb_true_iff in Hall as [Hl Hall].
  unfold blank_line in Hl. cbn [snd] in Hl. cbn [parse_loop].
  destruct (lex l); try discriminate. exact (IH Hall).
Qed.

(** X10.  A source that holds nothing but blank lines and comments parses:
    [parse] returns the defaults, a sleep and a poll count of 100 and the
    teardown that does nothing, or the empty namespace with [config_only],
    and no call leaves the module.  (Without any line at all the closing
    [done] has no line to be sent with.) *)
Theorem blank_source_gives_defaults w lines :
  lines <> [] ->
  forallb blank_line lines = true ->
  parse_lines w false lines FSM_init =
    (set_state StDone FSM_init, Ok (Control (VInt 100) (VInt 100) NoTeardown)) /\
  parse_lines w true lines FSM_init =
    (set_state StDone FSM_init, Ok (ConfigOnly [] [])).
Proof.
  intros Hne Hall.
  assert (exists f n l, last lines = Some (f, n, l)) as (f & n & l & Hlast).
  { destruct (last lines) as [[[f n] l]|] eqn:E; [eauto|].
    apply last_None in E. contradiction. }
  unfold parse_lines. unfold mbind at 1 2 5 6. unfold M_bind at 1 2 5 6.
  rewrite !(parse_loop_blank _ _ _ _ Hall), Hlast. split; reflexivity.
Qed.

Lemma blank_source_example :
  parse_lines (plain_world [] true) false
    (numbered "micro" (file_lines ["# nothing yet"; ""; "   # still nothing"])) FSM_init =
    (set_state StDone FSM_init, Ok (Control (VInt 100) (VInt 100) NoTeardown)).
Proof.
  exact (proj1 (blank_source_gives_defaults (plain_world [] true)
                  (numbered "micro" (file_lines ["# nothing yet"; ""; "   # still nothing"]))
                  ltac:(discriminate) eq_refl)).
Defined.

Example empty_source_raises w co :
  (parse_lines w co [] FSM_init).2 = Raise NameError.
Proof. destruct co; reflexivity. Qed.

Lemma inward_snoc (t : list call) (c : call) :
  forallb (fun c => negb (outward_call c)) t = true ->
  outward_call c = false ->
  forallb (fun c => negb (outward_call c)) (t ++ [c]) = true.
Proof.
  intros Ht Hc. rewrite forallb_app, Ht. cbn. rewrite Hc. reflexivity.
Qed.

Lemma handle_inside w ev d fname n s s' r :
  inside s ->
  is_config_event ev || String.eqb ev "done" = true ->
  handle w ev d fname n s = (s', r) ->
  inside s'.
Proof.
  unfold inside. intros (Hs & Hr & Hsrv & Ht) Hev H. munfold.
  unfold is_config_event in *.
  destruct s as [st td cfg keys pts dat srv reg tr].
  cbn [state registry server trace] in *. subst reg srv.
  event_cases ev; try discriminate Hev;
    destruct Hs as [-> | [-> | ->]]; run_in H; injection H as <- <-; cbn;
    repeat split; auto; apply inward_snoc; auto.
Qed.

Lemma parse_loop_inside w lines : forall s s' r,
  inside s -> parse_loop w true lines s = (s', r) -> inside s'.
Proof.
  induction lines as [|[[f n] l] lines IH]; intros s s' r Hs H.
  - injection H as <- _. exact Hs.
  - cbn [parse_loop] in H. destruct (lex l) as [|ev v|e].
    + exact (IH _ _ _ Hs H).
    + cbn [andb] in H. destruct (is_config_event ev) eqn:Hev; cbn [negb] in H.
      * unfold mbind, M_bind in H.
        destruct (handle w ev (Some v) f n s) as [s1 [[]|e]] eqn:E.
        -- refine (IH _ _ _ _ H). refine (handle_inside _ _ _ _ _ _ _ _ Hs _ E).
           rewrite Hev. reflexivity.
        -- injection H as <- _. refine (handle_inside _ _ _ _ _ _ _ _ Hs _ E).
           rewrite Hev. reflexivity.
      * exact (IH _ _ _ Hs H).
    + injection H as <- _. exact Hs.
Qed.

Lemma parse_config_only_inside w lines :
  inside (parse_lines w true lines FSM_init).1.
Proof.
  unfold parse_lines. unfold mbind at 1 2. unfold M_bind at 1 2.
  destruct (parse_loop w true lines FSM_init) as [s1 [[]|e]] eqn:E.
  - assert (inside s1) as Hs1.
    { refine (parse_loop_inside w lines _ _ _ _ E). repeat split. left. reflexivity. }
    destruct (last lines) as [[[f n] l]|]; [|exact Hs1].
    destruct (handle w "done" None f (S n) s1) as [s2 [[]|e]] eqn:E2.
    + exact (handle_inside w "done" None f (S n) s1 s2 _ Hs1 eq_refl E2).
    + exact (handle_inside w "done" None f (S n) s1 s2 _ Hs1 eq_refl E2).
  - refine (parse_loop_inside w lines _ _ _ _ E). repeat split. left. reflexivity.
Qed.

(** X11.  [load_config] only reads: whatever the files hold and whether
    they parse or not, no setup function is called and no listener reaches
    the registry; SETUP, SERVER, PORT and the rest are passed over. *)
Theorem load_config_stays_inside w fuel s r :
  load_config w fuel = Some (s, r) ->
  registry s = [] /\
  forallb (fun c => negb (outward_call c)) (trace s) = true.
Proof.
  unfold load_config, parse. intros H.
  assert (inside s) as (_ & Hr & _ & Ht); [|split; assumption].
  destruct (load (files w) fuel "micro") as [[lines|e]|]; [| |discriminate].
  - pose proof (parse_config_only_inside w lines) as Hin.
    destruct (parse_lines w true lines FSM_init) as [s0 [[cfg keys|a b c]|e]];
      injection H as <- _; exact Hin.
  - injection H as <- _. repeat split. left. reflexivity.
Qed.

(** A file with SETUP, TEARDOWN, SERVER, ROUTE and GET: the five keys come
    back and nothing was called. *)
Lemma load_config_example :
  registry (parse_lines (plain_world full_file false) true
              (numbered "micro" (snd (hd ("", []) full_file))) FSM_init).1 = [] /\
  forallb (fun c => negb (outward_call c))
    (trace (parse_lines (plain_world full_file false) true
              (numbered "micro" (snd (hd ("", []) full_file))) FSM_init).1) = true.
Proof.
  apply (load_config_stays_inside (plain_world full_file false) 1 _
           (Ok (server_keys "api" 8080))).
  vm_compute. reflexivity.
Defined.

Lemma handle_teardown_kept w ev d fname n s s' r :
  String.eqb ev "teardown" = false ->
  handle w ev d fname n s = (s', r) -> teardown s' = teardown s.
Proof.
  intros Hev H. munfold. unfold is_config_event, is_method_event in *.
  destruct s as [st td cfg keys pts dat srv reg tr]. cbn [teardown] in *.
  event_cases ev; try discriminate Hev; destruct st; run_in H;
    injection H as <- <-; reflexivity.
Qed.

Lemma parse_loop_teardown_kept w co lines : forall s s' r,
  existsb teardown_line lines = false ->
  parse_loop w co lines s = (s', r) -> teardown s' = teardown s.
Proof.
  induction lines as [|[[f n] l] lines IH]; intros s s' r Hno H.
  - injection H as <- _. reflexivity.
  - cbn [existsb] in Hno. apply orb_false_iff in Hno as [Hl Hno].
    unfold teardown_line in Hl. cbn [snd] in Hl. cbn [parse_loop] in H.
    destruct (lex l) as [|ev v|e].
    + exact (IH _ _ _ Hno H).
    + destruct (co && negb (is_config_event ev)); [exact (IH _ _ _ Hno H)|].
      unfold mbind, M_bind in H.
      destruct (handle w ev (Some v) f n s) as [s1 [[]|e]] eqn:E.
      * rewrite (IH _ _ _ Hno H). exact (handle_teardown_kept _ _ _ _ _ _ _ _ Hl E).
      * injection H as <- _. exact (handle_teardown_kept _ _ _ _ _ _ _ _ Hl E).
    + injection H as <- _. reflexivity.
Qed.

(** X12.  Without a TEARDOWN directive a full parse that returns hands
    back the control tuple with the teardown that does nothing, the lambda
    [FSM.__init__] puts in place: no other directive touches
    [self.teardown]. *)
Theorem teardown_defaults_to_noop w lines s r :
  existsb teardown_line lines = false ->
  parse_lines w false lines FSM_init = (s, Ok r) ->
  teardown s = NoTeardown /\
  exists sleep max_iterations, r = Control sleep max_iterations NoTeardown.
Proof.
  intros Hno Hp.
  destruct (parse_lines_returns _ _ _ _ _ Hp) as (s1 & f & n & l & Hloop & Hlast & Hdone).
  pose proof (parse_loop_teardown_kept _ _ _ _ _ _ Hno Hloop) as T1.
  pose proof (handle_teardown_kept w "done" None f (S n) s1 s _ eq_refl Hdone) as T2.
  assert (teardown s = NoTeardown) as Ht by (rewrite T2, T1; reflexivity).
  split; [exact Ht|].
  unfold parse_lines in Hp. unfold mbind at 1 2 in Hp. unfold M_bind at 1 2 in Hp.
  rewrite Hloop, Hlast, Hdone in Hp.
  unfold mbind, M_bind, get, lift, mret, M_ret in Hp. cbn [negb] in Hp.
  repeat (match type of Hp with
          | context [match ?x with _ => _ end] => destruct x; try discriminate Hp
          end);
    injection Hp as <-; rewrite Ht; eauto.
Qed.

(** The docstring example has no TEARDOWN. *)
Lemma teardown_default_example :
  teardown (parse_lines (plain_world [] false) false ping_lines FSM_init).1 = NoTeardown /\
  exists sleep max_iterations,
    Control (VInt 100) (VInt 100) NoTeardown = Control sleep max_iterations NoTeardown.
Proof.
  exact (teardown_defaults_to_noop (plain_world [] false) ping_lines
           (parse_lines (plain_world [] false) false ping_lines FSM_init).1
           (Control (VInt 100) (VInt 100) NoTeardown)
           eq_refl ltac:(vm_compute; reflexivity)).
Defined.

Lemma handle_raises_located w ev d fname n s s' e :
  handle w ev d fname n s = (s', Raise e) -> exists e0, e = Located e0 n fname.
Proof.
  unfold handle.
  destruct ((modify (set_data d);; self_state w 2 ev) s) as [s1 [[]|e1]];
    intros [= _ <-]. eauto.
Qed.

Lemma lex_bad_line (l : string) (e : exn) : lex l = BadLine e -> e = ValueError.
Proof.
  unfold lex. destruct (is_empty _); [discriminate|].
  destruct (split_once " " _) as [|a [|b [|c r]]]; congruence.
Qed.

Lemma parse_loop_error w co lines : forall s s' e,
  parse_loop w co lines s = (s', Raise e) ->
  (e = ValueError /\ exists x, x ∈ lines /\ lex x.2 = BadLine ValueError) \/
  (exists e0 f n l, e = Located e0 n f /\ (f, n, l) ∈ lines).
Proof.
  induction lines as [|[[f n] l] lines IH]; intros s s' e H; [discriminate|].
  assert (forall s1, parse_loop w co lines s1 = (s', Raise e) ->
    (e = ValueError /\ exists x, x ∈ (f, n, l) :: lines /\ lex x.2 = BadLine ValueError) \/
    (exists e0 f0 n0 l0, e = Located e0 n0 f0 /\ (f0, n0, l0) ∈ (f, n, l) :: lines)) as Hrest.
  { intros s1 H1. destruct (IH _ _ _ H1) as [(-> & x & Hx & Hl) | (e0 & f0 & n0 & l0 & -> & Hx)].
    - left. split; [reflexivity|]. exists x. split; [apply elem_of_cons; auto | exact Hl].
    - right. exists e0, f0, n0, l0. split; [reflexivity | apply elem_of_cons; auto]. }
  cbn [parse_loop] in H. destruct (lex l) as [|ev v|e1] eqn:Hlex.
  - exact (Hrest _ H).
  - destruct (co && negb (is_config_event ev)); [exact (Hrest _ H)|].
    unfold mbind, M_bind in H.
    destruct (handle w ev (Some v) f n s) as [s1 [[]|e2]] eqn:E; [exact (Hrest _ H)|].
    injection H as _ <-. destruct (handle_raises_located _ _ _ _ _ _ _ _ E) as [e0 ->].
    right. exists e0, f, n, l. split; [reflexivity | apply elem_of_cons; auto].
  - injection H as _ <-. pose proof (lex_bad_line _ _ Hlex) as ->.
    left. split; [reflexivity|]. exists (f, n, l). split; [apply elem_of_cons; auto | exact Hlex].
Qed.

(** What [parse] raises once the lines are loaded. *)
Lemma parse_lines_error w co lines s e :
  parse_lines w co lines FSM_init = (s, Raise e) ->
  (e = ValueError /\ exists x, x ∈ lines /\ lex x.2 = BadLine ValueError) \/
  (exists e0 f n l, e = Located e0 n f /\ (f, n, l) ∈ lines) \/
  (exists e0 f n l, e = Located e0 (S n) f /\ last lines = Some (f, n, l)) \/
  (lines = [] /\ e = NameError) \/
  (co = false /\ state s = StDone /\
   (sec_getattr w (config s) (NamedSection "loop") "sleep" = Raise e \/
    sec_getattr w (config s) (NamedSection "loop") "max_iterations" = Raise e)).
Proof.
  unfold parse_lines. unfold mbind at 1 2. unfold M_bind at 1 2.
  destruct (parse_loop w co lines FSM_init) as [s1 [[]|e1]] eqn:E.
  - destruct (last lines) as [[[f n] l]|] eqn:Hlast.
    + destruct (handle w "done" None f (S n) s1) as [s2 [[]|e2]] eqn:E2.
      * pose proof (handle_state _ _ _ _ _ _ _ E2) as T.
        assert (state s2 = StDone) as Hs2 by (destruct (state s1); cbn in T; congruence).
        unfold mbind, M_bind, get, lift, mret, M_ret. destruct co; [discriminate|].
        intros H. do 4 right. split; [reflexivity|].
        destruct (config_hasattr w (config s2) "loop"); [|discriminate H].
        destruct (sec_getattr w (config s2) (NamedSection "loop") "sleep")
          as [v1|e1] eqn:G1.
        -- destruct (sec_getattr w (config s2) (NamedSection "loop") "max_iterations")
             as [v2|e2] eqn:G2; [discriminate H|].
           injection H as <- <-. split; [exact Hs2|]. right. exact G2.
        -- injection H as <- <-. split; [exact Hs2|]. left. exact G1.
      * intros [= _ <-]. destruct (handle_raises_located _ _ _ _ _ _ _ _ E2) as [e0 ->].
        right. right. left. exists e0, f, n, l. split; reflexivity.
    + intros [= _ <-]. apply last_None in Hlast. do 3 right. left. auto.
  - intros [= _ <-]. destruct (parse_loop_error _ _ _ _ _ _ E) as [H | H]; auto.
Qed.

(** X13.  Where an error of [parse] comes from.  It is an error of [_load],
    raised before the machine has handled anything.  Or the lines were
    loaded, and it is the bare ValueError of a line without a space; or it
    carries the file and the number of a line of the stream; or it carries
    the file of the last line and the number after it, raised by the
    closing [done]; or the stream was empty and the closing [done] had no
    line to be sent with; or, in a full parse, the machine had reached
    [state_done] and the error is that of reading [loop.sleep] or
    [loop.max_iterations]. *)
Theorem parse_error_is_located w fuel fname co s e :
  parse w fuel fname co = Some (s, Raise e) ->
  (load (files w) fuel fname = Some (Raise e) /\ s = FSM_init) \/
  exists lines,
    load (files w) fuel fname = Some (Ok lines) /\
    ((e = ValueError /\ exists x, x ∈ lines /\ lex x.2 = BadLine ValueError) \/
     (exists e0 f n l, e = Located e0 n f /\ (f, n, l) ∈ lines) \/
     (exists e0 f n l, e = Located e0 (S n) f /\ last lines = Some (f, n, l)) \/
     (lines = [] /\ e = NameError) \/
     (co = false /\ state s = StDone /\
      (sec_getattr w (config s) (NamedSection "loop") "sleep" = Raise e \/
       sec_getattr w (config s) (NamedSection "loop") "max_iterations" = Raise e))).
Proof.
  unfold parse. destruct (load (files w) fuel fname) as [[lines|e1]|]; [| |discriminate].
  - intros [= H]. right. exists lines. split; [reflexivity|].
    exact (parse_lines_error w co lines s e H).
  - intros [= <- <-]. left. split; reflexivity.
Qed.

(** GET on line 3 names a path without a dot; and a file that is not there. *)
Lemma parse_error_example :
  ((load (files (plain_world bad_method_file false)) 1 "micro"
      = Some (Raise (Located ValueError 3 "micro")) /\
    (parse_lines (plain_world bad_method_file false) false
       (numbered "micro" (snd (hd ("", []) bad_method_file))) FSM_init).1 = FSM_init) \/
   exists lines,
     load (files (plain_world bad_method_file false)) 1 "micro" = Some (Ok lines) /\
     ((Located ValueError 3 "micro" = ValueError /\
       exists x, x ∈ lines /\ lex x.2 = BadLine ValueError) \/
      (exists e0 f n l, Located ValueError 3 "micro" = Located e0 n f /\ (f, n, l) ∈ lines) \/
      (exists e0 f n l, Located ValueError 3 "micro" = Located e0 (S n) f /\
         last lines = Some (f, n, l)) \/
      (lines = [] /\ Located ValueError 3 "micro" = NameError) \/
      (false = false /\
       state (parse_lines (plain_world bad_method_file false) false
                (numbered "micro" (snd (hd ("", []) bad_method_file))) FSM_init).1 = StDone /\
       (sec_getattr (plain_world bad_method_file false)
          (config (parse_lines (plain_world bad_method_file false) false
                     (numbered "micro" (snd (hd ("", []) bad_method_file))) FSM_init).1)
          (NamedSection "loop") "sleep" = Raise (Located ValueError 3 "micro") \/
        sec_getattr (plain_world bad_method_file false)
          (config (parse_lines (plain_world bad_method_file false) false
                     (numbered "micro" (snd (hd ("", []) bad_method_file))) FSM_init).1)
          (NamedSection "loop") "max_iterations" = Raise (Located ValueError 3 "micro"))))) /\
  ((load (files (plain_world [] false)) 1 "micro" = Some (Raise (IOError "micro")) /\
    FSM_init = FSM_init) \/
   exists lines,
     load (files (plain_world [] false)) 1 "micro" = Some (Ok lines) /\
     ((IOError "micro" = ValueError /\
       exists x, x ∈ lines /\ lex x.2 = BadLine ValueError) \/
      (exists e0 f n l, IOError "micro" = Located e0 n f /\ (f, n, l) ∈ lines) \/
      (exists e0 f n l, IOError "micro" = Located e0 (S n) f /\
         last lines = Some (f, n, l)) \/
      (lines = [] /\ IOError "micro" = NameError) \/
      (false = false /\ state FSM_init = StDone /\
       (sec_getattr (plain_world [] false) (config FSM_init)
          (NamedSection "loop") "sleep" = Raise (IOError "micro") \/
        sec_getattr (plain_world [] false) (config FSM_init)
          (NamedSection "loop") "max_iterations" = Raise (IOError "micro"))))).
Proof.
  split.
  - apply (parse_error_is_located (plain_world bad_method_file false) 1 "micro" false).
    vm_compute. reflexivity.
  - apply (parse_error_is_located (plain_world [] false) 1 "micro" false).
    vm_compute. reflexivity.
Defined.

(** ** Dotted paths *)

Local Transparent _import.

Lemma rsplit_once_missing (sep : ascii) (s : string) :
  contains sep s = false -> rsplit_once sep s = [s].
Proof.
  induction s as [|c s IH]; [reflexivity|].
  cbn [contains rsplit_once]. destruct (Ascii.eqb sep c) eqn:E; [discriminate|].
  intros H. rewrite (IH H). rewrite Ascii.eqb_sym, E. reflexivity.
Qed.

Lemma rsplit_once_last (sep : ascii) (a b : string) :
  contains sep b = false -> rsplit_once sep (a +:+ String sep b) = [a; b].
Proof.
  intros H. induction a as [|c a IH].
  - change (EmptyString +:+ String sep b) with (String sep b).
    cbn [rsplit_once]. rewrite (rsplit_once_missing _ _ H), Ascii.eqb_refl. reflexivity.
  - rewrite app_cons. cbn [rsplit_once]. rewrite IH. reflexivity.
Qed.

(** X14.  A dotted path is cut at its last dot.  What stands before it is
    imported as a module by its absolute name, also when it holds dots
    itself: nothing before the dot is the ValueError of an empty module
    name, a leading dot the TypeError of a relative import without a
    package, and any other name raises what its import raises.  When the
    import returns, what stands after the dot is looked up in the module. *)
Theorem import_cuts_at_last_dot w modname fn :
  contains "." fn = false ->
  _import w (modname +:+ String "." fn) false =
    if is_prefix "." modname then Raise TypeError
    else if is_empty modname then Raise ValueError
    else match import_module w modname with
         | Some e => Raise e
         | None =>
             if module_attr w modname fn then Ok (Fn modname fn)
             else Raise (AttributeError fn)
         end.
Proof.
  intros H. unfold _import, import_module_call.
  rewrite (rsplit_once_last _ _ _ H).
  destruct (is_prefix "." modname); [reflexivity|].
  destruct (is_empty modname); [reflexivity|].
  destruct (import_module w modname); reflexivity.
Qed.

Lemma import_example :
  _import (plain_world [] false) "pkg.views.users.list" false =
    Ok (Fn "pkg.views.users" "list") /\
  _import (plain_world [] false) ".list" false = Raise ValueError /\
  _import (plain_world [] false) "..list" false = Raise TypeError.
Proof.
  split; [|split].
  - exact (import_cuts_at_last_dot (plain_world [] false) "pkg.views.users" "list" eq_refl).
  - exact (import_cuts_at_last_dot (plain_world [] false) "" "list" eq_refl).
  - exact (import_cuts_at_last_dot (plain_world [] false) "." "list" eq_refl).
Defined.

(** X15.  A path without a dot names no function: [_import] raises the
    ValueError of the unpacking before any module is imported, so a method,
    SETUP or TEARDOWN directive with such a path stops the parse. *)
Theorem import_needs_a_dot w path :
  contains "." path = false ->
  _import w path false = Raise ValueError /\
  forall s fname n,
    state s = StInit ->
    handle w "teardown" (Some path) fname n s =
      (set_data (Some path) s, Raise (Located ValueError n fname)).
Proof.
  intros H.
  assert (_import w path false = Raise ValueError) as Hi
    by (unfold _import; rewrite (rsplit_once_missing _ _ H); reflexivity).
  split; [exact Hi|].
  intros s fname n Hs. munfold. destruct s as [st td cfg keys pts dat srv reg tr].
  cbn [state] in Hs. subst st. cbn -[_import]. rewrite Hi. reflexivity.
Qed.

Lemma import_needs_a_dot_example :
  _import (plain_world [] false) "cleanup" false = Raise ValueError /\
  forall s fname n,
    state s = StInit ->
    handle (plain_world [] false) "teardown" (Some "cleanup") fname n s =
      (set_data (Some "cleanup") s, Raise (Located ValueError n fname)).
Proof. exact (import_needs_a_dot (plain_world [] false) "cleanup" eq_refl). Defined.

Local Opaque _import.

(** ** CONFIG *)

Local Transparent _config.

Lemma split_ws_one (t : string) : is_token t -> split_ws t = [t].
Proof.
  intros Ht. unfold split_ws. rewrite <- (app_empty_r t) at 1.
  rewrite (split_ws_token _ _ Ht). reflexivity.
Qed.

(** X16.  A CONFIG directive that gives nothing but a name registers the
    key with the value None, no validator and no environment variable. *)
Theorem config_bare_name w cfg name :
  contains " " name = false ->
  _config w cfg name =
    Ok (cfg ++ [{| key_name := name; key_value := VNone;
                   key_validator := None; key_env := None |}], name).
Proof.
  intros H. unfold _config. rewrite (split_once_missing _ _ H). reflexivity.
Qed.

Lemma config_bare_name_example :
  _config (plain_world [] false) [] "debug" =
    Ok ([{| key_name := "debug"; key_value := VNone;
            key_validator := None; key_env := None |}], "debug").
Proof. exact (config_bare_name (plain_world [] false) [] "debug" eq_refl). Defined.

(** X17.  With [default=] and [validate=] the default is run through the
    validator while the directive is handled: the key is registered with
    the validated value, and when the validator refuses the default, its
    error is the outcome and no key is registered. *)
Theorem config_default_is_validated w cfg name d k f :
  contains " " name = false ->
  is_token d ->
  validator_named k = Some f ->
  _config w cfg (name +:+ " default=" +:+ d +:+ " validate=" +:+ k) =
    match run_validator (isfile w) f (VStr d) with
    | Ok v => Ok (cfg ++ [{| key_name := name; key_value := v;
                             key_validator := Some f; key_env := None |}], name)
    | Raise e => Raise e
    end.
Proof.
  intros Hname [Hd1 Hd2] Hk. unfold _config.
  change (name +:+ " default=" +:+ d +:+ " validate=" +:+ k)
    with (name +:+ String " " ("default=" +:+ d +:+ " validate=" +:+ k)).
  rewrite (split_once_found _ _ _ Hname).
  assert (is_token ("default=" +:+ d)) as Htd.
  { split; [reflexivity|]. cbn. exact Hd2. }
  change (split_ws ("default=" +:+ d +:+ " validate=" +:+ k))
    with (split_ws (("default=" +:+ d) +:+ " " +:+ ("validate=" +:+ k))).
  unfold validator_named in Hk.
  destruct (String.eqb_spec k "int") as [->|_];
    [|destruct (String.eqb_spec k "bool") as [->|_];
      [|destruct (String.eqb_spec k "file") as [->|_]; [|discriminate]]];
    injection Hk as <-;
    (rewrite split_ws_two; [|exact Htd|split; reflexivity]);
    cbn [kwargs_of];
    change (split_once "=" ("default=" +:+ d))
      with (split_once "=" ("default" +:+ String "=" d));
    rewrite (split_once_found "=" "default" d eq_refl);
    match goal with
    | |- context [split_once "=" ("validate=" +:+ ?k)] =>
        change (split_once "=" ("validate=" +:+ k)) with ["validate"; k]
    end;
    cbn [kwargs_of mbind result_bind];
    rewrite lookup_insert_eq; cbn [mbind result_bind];
    rewrite lookup_insert_ne by discriminate;
    rewrite lookup_delete_ne by discriminate;
    rewrite lookup_insert_ne by discriminate;
    rewrite lookup_insert_eq;
    rewrite lookup_delete_ne by discriminate;
    rewrite lookup_insert_ne by discriminate;
    rewrite lookup_insert_eq;
    (destruct (run_validator (isfile w) _ (VStr d)) as [v|e]; [|reflexivity]);
    cbn [mbind result_bind]; vm_compute; reflexivity.
Qed.

Lemma config_default_example :
  _config (plain_world [] false) [] "poll.sleep default=50 validate=int" =
    Ok ([{| key_name := "poll.sleep"; key_value := VInt 50;
            key_validator := Some validate_int; key_env := None |}], "poll.sleep") /\
  _config (plain_world [] false) [] "poll.sleep default=soon validate=int" =
    Raise (ValidationError "soon").
Proof.
  split.
  - exact (config_default_is_validated (plain_world [] false) [] "poll.sleep" "50" "int"
             validate_int eq_refl (conj eq_refl eq_refl) eq_refl).
  - exact (config_default_is_validated (plain_world [] false) [] "poll.sleep" "soon" "int"
             validate_int eq_refl (conj eq_refl eq_refl) eq_refl).
Defined.

Lemma unknown_validator_match (k : string) :
  validator_named k = None ->
  match VStr k with
  | VStr "int" => Ok validate_int
  | VStr "bool" => Ok validate_bool
  | VStr "file" => Ok validate_file
  | _ => Raise UnrecognizedValidation
  end = Raise UnrecognizedValidation.
Proof.
  unfold validator_named.
  destruct (String.eqb_spec k "int") as [->|H1]; [discriminate|].
  destruct (String.eqb_spec k "bool") as [->|H2]; [discriminate|].
  destruct (String.eqb_spec k "file") as [->|H3]; [discriminate|].
  intros _. peel k; peel k; peel k; peel k; peel k.
Qed.

(** X18.  A [validate=] that is not int, bool or file makes the directive
    fail with 'not a recognized validation type'; no key is registered. *)
Theorem config_unknown_validator w cfg name k :
  contains " " name = false ->
  is_token k ->
  validator_named k = None ->
  _config w cfg (name +:+ " validate=" +:+ k) = Raise UnrecognizedValidation.
Proof.
  intros Hname [Hk1 Hk2] Hk. unfold _config.
  change (name +:+ " validate=" +:+ k) with (name +:+ String " " ("validate=" +:+ k)).
  rewrite (split_once_found _ _ _ Hname).
  rewrite split_ws_one by (split; [reflexivity | cbn; exact Hk2]).
  cbn [kwargs_of].
  change (split_once "=" ("validate=" +:+ k))
    with (split_once "=" ("validate" +:+ String "=" k)).
  rewrite (split_once_found "=" "validate" k eq_refl).
  cbn [kwargs_of mbind result_bind].
  change ((<["validate" := VStr k]> (∅ : gmap string pyval)) !! "validate")
    with (Some (VStr k)).
  cbv beta iota. rewrite (unknown_validator_match k Hk). reflexivity.
Qed.

Lemma config_unknown_validator_example :
  _config (plain_world [] false) [] "retries validate=float" = Raise UnrecognizedValidation.
Proof.
  exact (config_unknown_validator (plain_world [] false) [] "retries" "float"
           eq_refl (conj eq_refl eq_refl) eq_refl).
Defined.

Local Opaque _config.

(** ** Servers *)

Local Transparent Server_init py_int truthy.

(** X19.  A PORT directive with a number opens the same server whatever
    the config namespace and the environment hold: named "default",
    active, without SSL, with the built-in handler and the default limits.
    It enters nothing in [self.ports]. *)
Theorem port_opens_default_server w s d fname n :
  state s = StInit ->
  is_empty d = false ->
  all_digits d = true ->
  handle w "port" (Some d) fname n s =
    (set_state StServer
       (set_server (Some (default_server (digits_value 0 d))) (set_data (Some d) s)),
     Ok tt).
Proof.
  intros Hs Hne Hd. munfold. destruct s as [st td cfg keys pts dat srv reg tr].
  cbn [state] in Hs. subst st. cbn -[int_of_string].
  rewrite (int_of_digits _ Hne Hd). reflexivity.
Qed.

Lemma port_default_example :
  handle (plain_world [] true) "port" (Some "12345") "micro" 1 FSM_init =
    (set_state StServer
       (set_server (Some (default_server 12345)) (set_data (Some "12345") FSM_init)),
     Ok tt).
Proof.
  exact (port_opens_default_server (plain_world [] true) FSM_init "12345" "micro" 1%nat
           eq_refl eq_refl eq_refl).
Defined.

(** X20.  When the registry refuses the listener of the server that is
    being finalised, the closing [done] raises the registry's error with
    its line; the machine does not reach [state_done], and the listeners
    registered before stay registered. *)
Theorem registration_failure_raises w fname n s srv e :
  state s = StServer \/ state s = StRoute ->
  server s = Some srv ->
  truthy (is_active srv) = true ->
  add_server w (registry s) (closing_listener srv) = Raise e ->
  exists s',
    handle w "done" None fname n s = (s', Raise (Located e n fname)) /\
    state s' = state s /\
    registry s' = registry s /\
    last (trace s') = Some (CallAddServer (closing_listener srv)).
Proof.
  intros Hs Hsrv Hact Hadd. munfold. unfold closing_listener in *.
  destruct s as [st td cfg keys pts dat sv reg tr]. cbn [state server registry] in *.
  subst sv.
  destruct Hs as [-> | ->]; cbn -[truthy]; rewrite Hact; destruct (route srv);
    cbn in Hadd |- *; rewrite Hadd; cbn; eexists; repeat split; apply last_snoc.
Qed.

Lemma registration_failure_example :
  exists s',
    handle closed_world "done" None "micro" 4
      (set_state StRoute (set_server (Some (default_server 80)) FSM_init)) =
      (s', Raise (Located (External "permission denied") 4 "micro")) /\
    state s' = StRoute /\
    registry s' = [] /\
    last (trace s') = Some (CallAddServer (closing_listener (default_server 80))).
Proof.
  exact (registration_failure_raises closed_world "micro" 4%nat
           (set_state StRoute (set_server (Some (default_server 80)) FSM_init))
           (default_server 80) (External "permission denied")
           (or_intror eq_refl) eq_refl eq_refl eq_refl).
Defined.

(** X21.  A server whose [is_active] is false or empty is dropped when it
    is finalised: the closing [done] ends the parse without a call to the
    registry, and the route that was open is not added to its table. *)
Theorem inactive_server_is_skipped w fname n s srv :
  state s = StServer \/ state s = StRoute ->
  server s = Some srv ->
  truthy (is_active srv) = false ->
  handle w "done" None fname n s = (set_state StDone (set_data None s), Ok tt).
Proof.
  intros Hs Hsrv Hact. munfold.
  destruct s as [st td cfg keys pts dat sv reg tr]. cbn [state server] in *. subst sv.
  destruct Hs as [-> | ->]; cbn -[truthy]; rewrite Hact; reflexivity.
Qed.

Lemma inactive_server_example :
  handle closed_world "done" None "micro" 9
    (set_state StRoute
       (set_server
          (Some (with_routes (inactive_of (default_server 80)) [] (Some (Route_init (Some "/a")))))
          FSM_init)) =
  (set_state StDone
     (set_data None
        (set_state StRoute
           (set_server
              (Some (with_routes (inactive_of (default_server 80)) []
                       (Some (Route_init (Some "/a")))))
              FSM_init))),
   Ok tt).
Proof.
  exact (inactive_server_is_skipped closed_world "micro" 9%nat
           (set_state StRoute
              (set_server
                 (Some (with_routes (inactive_of (default_server 80)) []
                          (Some (Route_init (Some "/a")))))
                 FSM_init))
           (with_routes (inactive_of (default_server 80)) [] (Some (Route_init (Some "/a"))))
           (or_intror eq_refl) eq_refl eq_refl).
Defined.

Local Opaque Server_init py_int truthy.
